(** * ChatService.js: the data-access layer of the realtime chat sample

    A shallow embedding of [src/realtime-chat-react/src/services/ChatService.js]
    and the properties its specification states about it.

    The service talks to an external backend through promises.  The model
    computes the state a returned promise eventually reaches from the way the
    backend's own promise eventually behaves (fulfils, rejects, or never
    settles), and keeps a log of the backend calls made on the way.

    Two functions use an object created by [{}] as a table.  Such an object
    inherits the members of [Object.prototype]; the model keeps its own
    properties in a finite map and accounts for the inherited members where
    the code reads or assigns through them. *)

From stdpp Require Import gmap strings list fin_maps pretty.
From Stdlib Require Import ZArith.

Set Warnings "-register-all,-clear-no-such-hyp".

Local Open Scope string_scope.

(** ** Data model *)

(** Field values that occur in the stored documents. *)
Inductive Value :=
| VString (s : string)
| VBool (b : bool)
| VDate (t : Z).

Global Instance Value_eq_dec : EqDecision Value.
Proof. solve_decision. Defined.

(** [{ _id, name, ...profile fields }] *)
Module User.
Record t := mk { _id : string; name : string; profile : list (string * string) }.

Global Instance eq_dec : EqDecision t.
Proof. solve_decision. Defined.

Definition field (f : string) (u : t) : option Value :=
  if decide (f = "_id") then Some (VString (_id u))
  else if decide (f = "name") then Some (VString (name u))
  else VString <$> (list_to_map (profile u) : gmap string string) !! f.
End User.

(** [{ _id, to, from, creation }] as built by [createChat]. *)
Module Chat.
Record t := mk { _id : string; to : string; from : string; creation : Z }.

Global Instance eq_dec : EqDecision t.
Proof. solve_decision. Defined.

Definition field (f : string) (c : t) : option Value :=
  if decide (f = "_id") then Some (VString (_id c))
  else if decide (f = "to") then Some (VString (to c))
  else if decide (f = "from") then Some (VString (from c))
  else if decide (f = "creation") then Some (VDate (creation c))
  else None.
End Chat.

(** [{ _id, text, read, chat_id, from, time }] as built by [sendMessage]. *)
Module Message.
Record t := mk {
  _id : string; text : string; read : bool;
  chat_id : string; from : string; time : Z }.

Global Instance eq_dec : EqDecision t.
Proof. solve_decision. Defined.

Definition field (f : string) (m : t) : option Value :=
  if decide (f = "_id") then Some (VString (_id m))
  else if decide (f = "text") then Some (VString (text m))
  else if decide (f = "read") then Some (VBool (read m))
  else if decide (f = "chat_id") then Some (VString (chat_id m))
  else if decide (f = "from") then Some (VString (from m))
  else if decide (f = "time") then Some (VDate (time m))
  else None.
End Message.

(** The three collections of the backend and the documents each one holds. *)
Inductive Collection := Users | Chats | Messages.

Definition collection_name (c : Collection) : string :=
  match c with
  | Users => "users"
  | Chats => "chats"
  | Messages => "messages"
  end.

Definition Row (c : Collection) : Type :=
  match c with
  | Users => User.t
  | Chats => Chat.t
  | Messages => Message.t
  end.

Definition row_field (c : Collection) : string -> Row c -> option Value :=
  match c with
  | Users => User.field
  | Chats => Chat.field
  | Messages => Message.field
  end.

(** ** Filter predicates ([cond] and [or] of space-api) *)

Inductive Condition :=
| cond (f1 : string) (op : string) (f2 : string)
| or (clauses : list Condition).

(** Modelled from the spec: the predicate algebra of the external backend
    client, which is not part of this repository.  The spec names the equality
    condition [(field, "==", value)], the inequality [(field, "!=", value)]
    and the logical [or] over conditions, nested arbitrarily.  A condition on
    a field compares the document's value of that field with the given
    string; an operator other than these two selects nothing. *)
Fixpoint matches (get : string -> option Value) (c : Condition) : bool :=
  match c with
  | cond f1 op f2 =>
      if decide (op = "==") then bool_decide (get f1 = Some (VString f2))
      else if decide (op = "!=") then negb (bool_decide (get f1 = Some (VString f2)))
      else false
  | or clauses => existsb (matches get) clauses
  end.

Definition satisfies {c : Collection} (p : Condition) (doc : Row c) : bool :=
  matches (fun f => row_field c f doc) p.

(** ** Promises, exceptions and the backend *)

(** What a [throw] or a rejection carries. *)
Inductive Thrown :=
| TypeError (msg : string)
| ThrownString (s : string)
| BackendFailure (e : string).

Global Instance Thrown_eq_dec : EqDecision Thrown.
Proof. solve_decision. Defined.

(** The eventual behaviour of a promise handed out by the backend client, and
    of the promises derived from it by [.then] and [.catch]. *)
Inductive Outcome (R : Type) :=
| Fulfils (res : R)
| Rejects (err : Thrown)
| Unsettled.
Arguments Fulfils {R} res.
Arguments Rejects {R} err.
Arguments Unsettled {R}.

(** The state of the promise a service function returns. *)
Inductive Settled (V : Type) :=
| Pending
| Resolved (v : V)
| Rejected (reason : Thrown).
Arguments Pending {V}.
Arguments Resolved {V} v.
Arguments Rejected {V} reason.

(** [{ status, data: { result } }]; [data = None] is a response without a
    [data] member. *)
Record Response (D : Type) := mkResponse { status : Z; data : option D }.
Arguments mkResponse {D} status data.
Arguments status {D} r.
Arguments data {D} r.

(** [config.db]: how the backend answers each request. *)
Record Backend := mkBackend {
  insert_one : forall c : Collection, Row c -> Outcome (Response unit);
  update_one : forall c : Collection, Condition -> Row c -> Outcome (Response unit);
  get_where : forall c : Collection, Condition -> Outcome (Response (list (Row c))) }.

(** The requests sent to the backend, in the order they were made. *)
Inductive Call :=
| InsertOne (c : Collection) (doc : Row c)
| UpdateOne (c : Collection) (where_ : Condition) (set : Row c)
| Get (c : Collection) (where_ : Condition).

(** What a service function reads from its surroundings: the redux store's
    current user ([None] when nobody is signed in), the identifiers
    [config.generateId()] hands out one after the other, the clock, and the
    backend. *)
Record Env := mkEnv {
  store_user : option User.t;
  id_supply : nat -> string;
  now : Z;
  db : Backend }.

(** What a service function changes: how many identifiers were generated,
    the backend calls made, the promise it returns, and the rejections of
    derived promises nobody handles. *)
Record World (V : Type) := mkWorld {
  ids_taken : nat;
  calls : list Call;
  promise : Settled V;
  unhandled : list Thrown }.
Arguments mkWorld {V} ids_taken calls promise unhandled.
Arguments ids_taken {V} w.
Arguments calls {V} w.
Arguments promise {V} w.
Arguments unhandled {V} w.

Inductive Completion (A : Type) :=
| Normal (a : A)
| Throw (e : Thrown).
Arguments Normal {A} a.
Arguments Throw {A} e.

Global Instance Completion_ret : MRet Completion :=
  fun A a => Normal a.

Global Instance Completion_bind : MBind Completion :=
  fun A B k c =>
    match c with
    | Normal a => k a
    | Throw e => Throw e
    end.

(** A piece of JavaScript run inside a service function whose returned promise
    resolves with a [V]: it reads the environment, updates the world and
    completes normally or throws. *)
Definition Js (V A : Type) : Type := Env -> World V -> World V * Completion A.

Global Instance Js_ret {V} : MRet (Js V) :=
  fun A a _ w => (w, Normal a).

Global Instance Js_bind {V} : MBind (Js V) :=
  fun A B k m env w =>
    match m env w with
    | (w', Normal a) => k a env w'
    | (w', Throw e) => (w', Throw e)
    end.

Definition throw {V A} (e : Thrown) : Js V A :=
  fun _ w => (w, Throw e).

(** A computation that touches neither the environment nor the world. *)
Definition completes {V A} (c : Completion A) : Js V A :=
  fun _ w => (w, c).

(** [store.getState().user.user] *)
Definition store_getState_user {V} : Js V (option User.t) :=
  fun env w => (w, Normal (store_user env)).

(** [user._id]: reading a member of [null] or [undefined] throws. *)
Definition member_id {V} (user : option User.t) : Js V string :=
  match user with
  | Some u => mret (User._id u)
  | None => throw (TypeError "Cannot read properties of undefined (reading '_id')")
  end.

(** [config.generateId()] *)
Definition generateId {V} : Js V string :=
  fun env w =>
    (mkWorld (S (ids_taken w)) (calls w) (promise w) (unhandled w),
     Normal (id_supply env (ids_taken w))).

(** [new Date()] *)
Definition new_Date {V} : Js V Z :=
  fun env w => (w, Normal (now env)).

(** [resolve] and [reject] of the promise under construction: the first call
    settles it, later calls do nothing. *)
Definition settle {V} (s : Settled V) (w : World V) : World V :=
  match promise w with
  | Pending => mkWorld (ids_taken w) (calls w) s (unhandled w)
  | _ => w
  end.

Definition resolve {V} (v : V) : Js V unit :=
  fun _ w => (settle (Resolved v) w, Normal tt).

Definition reject {V} (e : Thrown) : Js V unit :=
  fun _ w => (settle (Rejected e) w, Normal tt).

Definition log_call {V} (c : Call) (w : World V) : World V :=
  mkWorld (ids_taken w) (calls w ++ [c]) (promise w) (unhandled w).

(** [config.db.insert(c).one(doc)] *)
Definition db_insert_one {V} (c : Collection) (doc : Row c)
  : Js V (Outcome (Response unit)) :=
  fun env w => (log_call (InsertOne c doc) w, Normal (insert_one (db env) c doc)).

(** [config.db.updateOne(c).where(p).set(doc).apply()] *)
Definition db_update_one {V} (c : Collection) (p : Condition) (doc : Row c)
  : Js V (Outcome (Response unit)) :=
  fun env w => (log_call (UpdateOne c p doc) w, Normal (update_one (db env) c p doc)).

(** [config.db.get(c).where(p).apply()] *)
Definition db_get {V} (c : Collection) (p : Condition)
  : Js V (Outcome (Response (list (Row c)))) :=
  fun env w => (log_call (Get c p) w, Normal (get_where (db env) c p)).

(** [res.data.result] *)
Definition data_result {V D} (res : Response D) : Js V D :=
  match data res with
  | Some result => mret result
  | None => throw (TypeError "Cannot read properties of undefined (reading 'result')")
  end.

(** [p.then(onFulfilled)]: the handler runs when [p] fulfils; the derived
    promise fulfils with what the handler returns and rejects with what it
    throws; a rejection of [p] passes through. *)
Definition then_ {V R S} (p : Outcome R) (onFulfilled : R -> Js V S)
  : Js V (Outcome S) :=
  fun env w =>
    match p with
    | Fulfils res =>
        match onFulfilled res env w with
        | (w', Normal s) => (w', Normal (Fulfils s))
        | (w', Throw e) => (w', Normal (Rejects e))
        end
    | Rejects err => (w, Normal (Rejects err))
    | Unsettled => (w, Normal Unsettled)
    end.

(** [p.catch(onRejected)]: the handler runs when [p] rejects. *)
Definition catch_ {V R} (p : Outcome R) (onRejected : Thrown -> Js V R)
  : Js V (Outcome R) :=
  fun env w =>
    match p with
    | Fulfils res => (w, Normal (Fulfils res))
    | Rejects err =>
        match onRejected err env w with
        | (w', Normal s) => (w', Normal (Fulfils s))
        | (w', Throw e) => (w', Normal (Rejects e))
        end
    | Unsettled => (w, Normal Unsettled)
    end.

(** The end of a promise chain whose value the code drops: a rejection left
    on it is handled by nobody. *)
Definition drop {V R} (p : Outcome R) : Js V unit :=
  fun _ w =>
    match p with
    | Rejects err =>
        (mkWorld (ids_taken w) (calls w) (promise w) (unhandled w ++ [err]), Normal tt)
    | _ => (w, Normal tt)
    end.

(** [new Promise((resolve, reject) => { ... })]: the executor runs at once; an
    exception it throws rejects the promise. *)
Definition new_Promise {V} (executor : Js V unit) : Js V unit :=
  fun env w =>
    match executor env w with
    | (w', Normal _) => (w', Normal tt)
    | (w', Throw e) => (settle (Rejected e) w', Normal tt)
    end.

(** The world a service function starts in, [n] identifiers having been
    generated before. *)
Definition start {V} (n : nat) : World V := mkWorld n [] Pending [].

(** The world after a call of a service function. *)
Definition after {V A} (env : Env) (n : nat) (f : Js V A) : World V :=
  fst (f env (start n)).

(** ** The service *)

Definition ALL_user : User.t := User.mk "ALL" "ALL" [].

(** *** Objects used as tables *)

(** The names an object created by [{}] inherits from [Object.prototype]: the
    standard built-in members, those of Annex B included.  All are functions,
    except [__proto__], an accessor whose getter returns the prototype of the
    object and whose setter replaces it. *)
Definition Object_prototype : list string :=
  ["constructor"; "__defineGetter__"; "__defineSetter__"; "hasOwnProperty";
   "__lookupGetter__"; "__lookupSetter__"; "isPrototypeOf";
   "propertyIsEnumerable"; "toString"; "valueOf"; "__proto__";
   "toLocaleString"].

(** What [obj[key]] finds on an object created by [{}] whose own properties
    are [obj]: an own property, a member inherited from [Object.prototype],
    or nothing ([undefined]). *)
Inductive Member (A : Type) :=
| Own (a : A)
| Inherited
| Missing.
Arguments Own {A} a.
Arguments Inherited {A}.
Arguments Missing {A}.

Definition get_member {A} (obj : gmap string A) (key : string) : Member A :=
  match obj !! key with
  | Some a => Own a
  | None => if decide (key ∈ Object_prototype) then Inherited else Missing
  end.

(** The object [users] of [convertRawUsersToHasedObject]: its own properties
    and its prototype, [None] for [Object.prototype] and [Some elt] once the
    user [elt] has taken its place. *)
Record UsersObject := mkUsersObject {
  own : gmap string User.t;
  prototype : option User.t }.

Definition define_own (key : string) (elt : User.t) (users : UsersObject)
  : UsersObject :=
  mkUsersObject (<[key := elt]> (own users)) (prototype users).

Definition set_prototype (elt : User.t) (users : UsersObject) : UsersObject :=
  mkUsersObject (own users) (Some elt).

(** [users[key] = elt].  The assignment defines or updates an own property of
    [users], with one exception: for the key [__proto__], when neither
    [users] nor a user that is its prototype has an own property of that
    name, the assignment reaches the setter of [Object.prototype], which
    makes [elt] the prototype of [users] and defines nothing. *)
Definition assign_user (users : UsersObject) (key : string) (elt : User.t)
  : UsersObject :=
  if decide (key = "__proto__") then
    match own users !! key, prototype users ≫= User.field key with
    | None, None => set_prototype elt users
    | _, _ => define_own key elt users
    end
  else define_own key elt users.

(** [array.forEach(callback)] with the state the callback updates passed
    along: the array is visited from its first element on, and an exception
    thrown by the callback ends the visit. *)
Fixpoint forEach {A S} (callback : S -> A -> Completion S) (s : S)
    (array : list A) : Completion S :=
  match array with
  | [] => Normal s
  | elt :: rest =>
      match callback s elt with
      | Normal s' => forEach callback s' rest
      | Throw e => Throw e
      end
  end.

(** [convertRawUsersToHasedObject]: every user of the array is assigned to
    [users] under its id, then the sentinel under "ALL". *)
Definition convertRawUsersToHasedObject (rawUsers : list User.t) : UsersObject :=
  let users :=
    foldl (fun users elt => assign_user users (User._id elt) elt)
      (mkUsersObject ∅ None) rawUsers in
  assign_user users "ALL" ALL_user.

(** [createChat]: the members of the object literal are evaluated in the
    order they are written. *)
Definition createChat (partnerID : string) : Js Chat.t unit :=
  new_Promise (
    user ← store_getState_user;
    _id ← generateId;
    from ← member_id user;
    creation ← new_Date;
    let chat := Chat.mk _id partnerID from creation in
    p ← db_insert_one Chats chat;
    p ← then_ p (fun res => resolve chat);
    p ← catch_ p (fun error => reject error);
    drop p).

Definition sendMessage (chatID text : string) : Js (Response unit) unit :=
  new_Promise (
    user ← store_getState_user;
    _id ← generateId;
    from ← member_id user;
    time ← new_Date;
    p ← db_insert_one Messages (Message.mk _id text false chatID from time);
    p ← then_ p (fun res =>
           (if negb (status res =? 200)%Z
            then reject (ThrownString "User not allowed to sign in")
            else mret tt);;
           resolve res);
    p ← catch_ p (fun error => reject error);
    drop p).

Definition updateMessage (message : Message.t) : Js (Response unit) unit :=
  new_Promise (
    p ← db_update_one Messages (cond "_id" "==" (Message._id message)) message;
    p ← then_ p (fun res => resolve res);
    p ← catch_ p (fun err => throw err);
    drop p).

(** One round of the loop of [getMessages].  [messages[key]] is created as
    an empty array when [messages[key]] is falsy, that is when nothing is
    found under [key]: an array, even an empty one, and an inherited member
    are truthy.  Then [messages[key].push(elt)] appends [elt] to the array
    found; an inherited member has no [push], and calling it throws. *)
Definition push_message (messages : gmap string (list Message.t)) (elt : Message.t)
  : Completion (gmap string (list Message.t)) :=
  let key := Message.chat_id elt in
  let messages :=
    match get_member messages key with
    | Missing => <[key := []]> messages
    | _ => messages
    end in
  match get_member messages key with
  | Own arr => Normal (<[key := (arr ++ [elt])%list]> messages)
  | Inherited => Throw (TypeError "messages[key].push is not a function")
  | Missing => Throw (TypeError "Cannot read properties of undefined (reading 'push')")
  end.

(** The table [getMessages] builds from the result of the query: the loop,
    then [messages["ALL"] = []]. *)
Definition group_messages (result : list Message.t)
  : Completion (gmap string (list Message.t)) :=
  messages ← forEach push_message ∅ result;
  mret (<["ALL" := []]> messages).

Definition getMessages : Js (gmap string (list Message.t)) unit :=
  new_Promise (
    user ← store_getState_user;
    to ← member_id user;
    from ← member_id user;
    let condition := or [cond "to" "==" to; cond "from" "==" from] in
    p ← db_get Messages condition;
    p ← then_ p (fun res =>
           if (status res =? 200)%Z then
             result ← data_result res;
             messages ← completes (group_messages result);
             resolve messages
           else mret tt);
    p ← catch_ p (fun err => reject err);
    drop p).

Definition getUsers : Js UsersObject unit :=
  new_Promise (
    user ← store_getState_user;
    _id ← member_id user;
    let condition := cond "_id" "!=" _id in
    p ← db_get Users condition;
    p ← then_ p (fun res =>
           if (status res =? 200)%Z then
             result ← data_result res;
             let users := convertRawUsersToHasedObject result in
             resolve users
           else mret tt);
    p ← catch_ p (fun err => reject err);
    drop p).

Definition getChats : Js (list Chat.t) unit :=
  new_Promise (
    user ← store_getState_user;
    from ← member_id user;
    to ← member_id user;
    let condition :=
      or [cond "from" "==" from; cond "to" "==" to; cond "to" "==" "ALL"] in
    p ← db_get Chats condition;
    p ← then_ p (fun res =>
           if (status res =? 200)%Z then
             result ← data_result res;
             resolve result
           else mret tt);
    p ← catch_ p (fun err => reject err);
    drop p).

(** *** Realtime triggers *)

(** [config.db.liveQuery(c)], narrowed by [.where(p)] or not: the query
    object the caller subscribes to. *)
Record LiveQuery := mkLiveQuery {
  lq_collection : Collection;
  lq_where : option Condition }.

Definition startMessagesRealtime (chatID : string) : LiveQuery :=
  let condition := cond "chat_id" "==" chatID in
  mkLiveQuery Messages (Some condition).

Definition startUsersRealtime : LiveQuery :=
  mkLiveQuery Users None.

Definition startChatsRealtime {V} : Js V LiveQuery :=
  user ← store_getState_user;
  to ← member_id user;
  from ← member_id user;
  let condition :=
    or [or [cond "to" "==" to; cond "from" "==" from; cond "to" "==" "ALL"]] in
  mret (mkLiveQuery Chats (Some condition)).

(** ** What the calls build *)

(** The chat [createChat] builds when [u] is signed in and [n] identifiers
    were generated before. *)
Definition new_chat (env : Env) (n : nat) (u : User.t) (partnerID : string)
  : Chat.t :=
  Chat.mk (id_supply env n) partnerID (User._id u) (now env).

(** The message [sendMessage] builds. *)
Definition new_message (env : Env) (n : nat) (u : User.t) (chatID text : string)
  : Message.t :=
  Message.mk (id_supply env n) text false chatID (User._id u) (now env).

(** The conditions the queries of user [u] carry. *)
Definition messages_condition (u : User.t) : Condition :=
  or [cond "to" "==" (User._id u); cond "from" "==" (User._id u)].

Definition users_condition (u : User.t) : Condition :=
  cond "_id" "!=" (User._id u).

Definition chats_condition (u : User.t) : Condition :=
  or [cond "from" "==" (User._id u); cond "to" "==" (User._id u);
      cond "to" "==" "ALL"].

Definition live_chats_condition (u : User.t) : Condition :=
  or [or [cond "to" "==" (User._id u); cond "from" "==" (User._id u);
          cond "to" "==" "ALL"]].

(** The outcome shared by the three deprecated queries: the promise settles
    on a 200 response (resolving with what [reshape] makes of the result, or
    rejecting when [reshape] throws or the response has no data) and on a
    backend failure, and on nothing else. *)
Definition query_promise {D V} (reshape : D -> Completion V)
    (reply : Outcome (Response D)) : Settled V :=
  match reply with
  | Fulfils res =>
      if (status res =? 200)%Z then
        match data res with
        | Some result =>
            match reshape result with
            | Normal v => Resolved v
            | Throw e => Rejected e
            end
        | None =>
            Rejected (TypeError "Cannot read properties of undefined (reading 'result')")
        end
      else Pending
  | Rejects err => Rejected err
  | Unsettled => Pending
  end.

(** A backend that honours the condition of a query: every row it returns
    satisfies the condition. *)
Definition honours {c : Collection} (p : Condition) (result : list (Row c)) : Prop :=
  Forall (fun doc => satisfies p doc = true) result.

(** What the deprecated queries do with a reply: [p] is the state of the
    returned promise, [reshape] what the query makes of the result list, a
    value or an exception. *)
Definition resolves_only_on_200 {D V} (reshape : D -> Completion V)
    (reply : Outcome (Response D)) (p : Settled V) : Prop :=
  (forall res result v, reply = Fulfils res -> status res = 200%Z ->
     data res = Some result -> reshape result = Normal v -> p = Resolved v) /\
  (forall v, p = Resolved v ->
     exists res result, reply = Fulfils res /\ status res = 200%Z /\
       data res = Some result /\ reshape result = Normal v) /\
  (forall res, reply = Fulfils res -> status res <> 200%Z -> p = Pending).

(** A chat id under which the loop of [getMessages] can file a message: one
    that is not the name of a member inherited from [Object.prototype]. *)
Definition plain_chat_id (elt : Message.t) : Prop :=
  Message.chat_id elt ∉ Object_prototype.

(** A message table that has no sequence under the name of an inherited
    member. *)
Definition plain_keys (messages : gmap string (list Message.t)) : Prop :=
  forall k, is_Some (messages !! k) -> k ∉ Object_prototype.

(** A user record without an own field named [__proto__]. *)
Definition plain_user (elt : User.t) : Prop :=
  User.field "__proto__" elt = None.

(** ** A sample session

    User [alice] is signed in, identifiers are [id0], [id1], ..., the clock
    shows 1000, and the backend gives the same answer to every write and
    answers queries by the rows it is given. *)
Definition alice : User.t := User.mk "u1" "Alice" [("avatar", "a.png")].
Definition bob : User.t := User.mk "u2" "Bob" [].

Definition sample_backend (write : Outcome (Response unit))
    (users : Outcome (Response (list User.t)))
    (chats : Outcome (Response (list Chat.t)))
    (messages : Outcome (Response (list Message.t))) : Backend :=
  mkBackend (fun _ _ => write) (fun _ _ _ => write)
    (fun c _ =>
       match c with
       | Users => users
       | Chats => chats
       | Messages => messages
       end).

Definition sample_env (write : Outcome (Response unit))
    (users : Outcome (Response (list User.t)))
    (chats : Outcome (Response (list Chat.t)))
    (messages : Outcome (Response (list Message.t))) : Env :=
  mkEnv (Some alice) (fun n => "id" +:+ pretty n) 1000
    (sample_backend write users chats messages).

Definition writes_env (write : Outcome (Response unit)) : Env :=
  sample_env write Unsettled Unsettled Unsettled.

(** A message of a chat whose id is the name of an inherited member. *)
Definition constructor_message : Message.t :=
  Message.mk "m9" "hi" false "constructor" "u1" 14.

Definition sample_messages : list Message.t :=
  [Message.mk "m1" "hi" false "c1" "u2" 10;
   Message.mk "m2" "all" false "ALL" "u2" 11;
   Message.mk "m3" "yo" false "c2" "u3" 12;
   Message.mk "m4" "bye" true "c1" "u1" 13].

(** How the deprecated queries fail or hang on a reply: a 200 response
    without data and a rejection of the backend reject the promise [p]; it
    stays pending exactly when the backend never settles or answers with a
    status other than 200. *)
Definition query_failures {D V} (reply : Outcome (Response D)) (p : Settled V)
  : Prop :=
  (forall res, reply = Fulfils res -> status res = 200%Z -> data res = None ->
     exists msg, p = Rejected (TypeError msg)) /\
  (forall err, reply = Rejects err -> p = Rejected err) /\
  (p = Pending <->
   reply = Unsettled \/ exists res, reply = Fulfils res /\ status res <> 200%Z).

(** What a call made while nobody is signed in leaves behind: no request,
    [ids] identifiers generated, and the promise rejected with the
    [TypeError] of reading [_id] of a missing user. *)
Definition rejected_unsent {V} (ids : nat) (w : World V) : Prop :=
  calls w = [] /\ ids_taken w = ids /\ unhandled w = [] /\
  exists msg, promise w = Rejected (TypeError msg).

(** An environment in which nobody is signed in. *)
Definition signed_out_env (write : Outcome (Response unit)) : Env :=
  mkEnv None (fun n => "id" +:+ pretty n) 1000
    (sample_backend write Unsettled Unsettled Unsettled).

(** ** What each call leaves behind *)

(** Unfolds the sequencing of the model down to the environment. *)
Ltac run_js :=
  unfold after, start, new_Promise, member_id, data_result;
  unfold mbind, Js_bind, mret, Js_ret, throw, completes, store_getState_user, generateId,
    new_Date, db_insert_one, db_update_one, db_get, then_, catch_, drop,
    resolve, reject, settle, log_call;
  simpl.

Section Calls.
Variable env : Env.
Variable n : nat.

Lemma createChat_world u partnerID :
  store_user env = Some u ->
  after env n (createChat partnerID) =
    mkWorld (S n) [InsertOne Chats (new_chat env n u partnerID)]
      match insert_one (db env) Chats (new_chat env n u partnerID) with
      | Fulfils _ => Resolved (new_chat env n u partnerID)
      | Rejects error => Rejected error
      | Unsettled => Pending
      end [].
Proof.
  intros Hu. unfold createChat, new_chat. run_js. rewrite Hu. simpl.
  destruct (insert_one _ _ _); reflexivity.
Qed.

Lemma sendMessage_world u chatID text :
  store_user env = Some u ->
  after env n (sendMessage chatID text) =
    mkWorld (S n) [InsertOne Messages (new_message env n u chatID text)]
      match insert_one (db env) Messages (new_message env n u chatID text) with
      | Fulfils res =>
          if (status res =? 200)%Z then Resolved res
          else Rejected (ThrownString "User not allowed to sign in")
      | Rejects error => Rejected error
      | Unsettled => Pending
      end [].
Proof.
  intros Hu. unfold sendMessage, new_message. run_js. rewrite Hu. simpl.
  destruct (insert_one _ _ _) as [[st d]| |]; simpl; try reflexivity.
  destruct (st =? 200)%Z; reflexivity.
Qed.

Lemma updateMessage_world message :
  let p := cond "_id" "==" (Message._id message) in
  after env n (updateMessage message) =
    mkWorld n [UpdateOne Messages p message]
      match update_one (db env) Messages p message with
      | Fulfils res => Resolved res
      | _ => Pending
      end
      match update_one (db env) Messages p message with
      | Rejects err => [err]
      | _ => []
      end.
Proof.
  unfold updateMessage. run_js.
  destruct (update_one _ _ _ _); reflexivity.
Qed.

Ltac run_query Hu :=
  run_js; rewrite Hu; simpl;
  match goal with
  | |- context [get_where ?b ?c ?p] =>
      destruct (get_where b c p) as [[st [result|]]| |]; simpl;
      try reflexivity; destruct (st =? 200)%Z; reflexivity
  end.

Lemma getMessages_world u :
  store_user env = Some u ->
  after env n getMessages =
    mkWorld n [Get Messages (messages_condition u)]
      (query_promise group_messages
         (get_where (db env) Messages (messages_condition u))) [].
Proof.
  intros Hu. unfold getMessages, messages_condition, query_promise.
  run_js. rewrite Hu. simpl.
  destruct (get_where _ _ _) as [[st [result|]]| |]; simpl; try reflexivity;
    destruct (st =? 200)%Z; try reflexivity.
  destruct (group_messages result); reflexivity.
Qed.

Lemma getUsers_world u :
  store_user env = Some u ->
  after env n getUsers =
    mkWorld n [Get Users (users_condition u)]
      (query_promise (fun result => Normal (convertRawUsersToHasedObject result))
         (get_where (db env) Users (users_condition u))) [].
Proof.
  intros Hu. unfold getUsers, users_condition, query_promise. run_query Hu.
Qed.

Lemma getChats_world u :
  store_user env = Some u ->
  after env n getChats =
    mkWorld n [Get Chats (chats_condition u)]
      (query_promise (fun result => Normal result)
         (get_where (db env) Chats (chats_condition u))) [].
Proof.
  intros Hu. unfold getChats, chats_condition, query_promise. run_query Hu.
Qed.

Lemma startChatsRealtime_value {V} u (w : World V) :
  store_user env = Some u ->
  startChatsRealtime env w =
    (w, Normal (mkLiveQuery Chats (Some (live_chats_condition u)))).
Proof.
  intros Hu. unfold startChatsRealtime, live_chats_condition. run_js.
  rewrite Hu. reflexivity.
Qed.

(** Nobody signed in: [user._id] throws inside the executor, the promise
    rejects with the [TypeError] and no request is sent. *)
Lemma signed_out_createChat partnerID :
  store_user env = None ->
  calls (after env n (createChat partnerID)) = [] /\
  promise (after env n (createChat partnerID)) =
    Rejected (TypeError "Cannot read properties of undefined (reading '_id')").
Proof. intros Hu. unfold createChat. run_js. rewrite Hu. simpl. auto. Qed.

End Calls.

(** ** The two tables *)

Section Tables.
Implicit Types (k : string) (users : UsersObject)
  (messages : gmap string (list Message.t)).

Lemma filter_no_match {A} (P : A -> Prop) `{forall x, Decision (P x)} (l : list A) :
  (forall x, x ∈ l -> ~ P x) -> filter P l = [].
Proof.
  induction l as [|x l IH]; intros Hl; [done|].
  rewrite filter_cons_False by (apply Hl; left).
  apply IH. intros y Hy. apply Hl. by right.
Qed.

(** *** The user table *)

Lemma assign_user_define users key (elt : User.t) :
  key <> "__proto__" -> assign_user users key elt = define_own key elt users.
Proof. intros Hkey. unfold assign_user. by rewrite decide_False. Qed.

(** An assignment under a key other than [__proto__] defines an own
    property; no assignment touches the own properties under other keys. *)
Lemma assign_user_lookup users key (elt : User.t) k :
  k <> "__proto__" ->
  own (assign_user users key elt) !! k =
    if decide (key = k) then Some elt else own users !! k.
Proof.
  intros Hk. unfold assign_user, define_own, set_prototype.
  destruct (decide (key = "__proto__")) as [->|Hkey].
  - rewrite decide_False by done.
    destruct (own users !! "__proto__"),
      (prototype users ≫= User.field "__proto__"); simpl;
      by rewrite ?lookup_insert_ne.
  - simpl. destruct (decide (key = k)) as [->|Hne].
    + apply lookup_insert_eq.
    + by apply lookup_insert_ne.
Qed.

(** An own property after an assignment is the one assigned or was there
    before. *)
Lemma assign_user_entry users key (elt : User.t) k (v : User.t) :
  own (assign_user users key elt) !! k = Some v ->
  (key = k /\ v = elt) \/ own users !! k = Some v.
Proof.
  unfold assign_user, define_own, set_prototype.
  assert (Hins : <[key := elt]> (own users) !! k = Some v ->
                 (key = k /\ v = elt) \/ own users !! k = Some v).
  { destruct (decide (key = k)) as [->|Hne].
    - rewrite lookup_insert_eq. intros [= <-]. by left.
    - rewrite lookup_insert_ne by done. by right. }
  destruct (decide (key = "__proto__")); [|exact Hins].
  destruct (own users !! key), (prototype users ≫= User.field key); simpl;
    solve [exact Hins | by right].
Qed.

(** After the loop of [convertRawUsersToHasedObject] a key other than
    [__proto__] holds the last user of the array that has it as id, or what
    it held before. *)
Lemma users_loop_lookup (rawUsers : list User.t) users k :
  k <> "__proto__" ->
  own (foldl (fun users elt => assign_user users (User._id elt) elt) users
         rawUsers) !! k =
    match last (filter (fun elt => User._id elt = k) rawUsers) with
    | Some elt => Some elt
    | None => own users !! k
    end.
Proof.
  intros Hk. revert users.
  induction rawUsers as [|elt rest IH]; intros users; [done|].
  simpl. rewrite IH, assign_user_lookup by done.
  destruct (decide (User._id elt = k)) as [Heq|Hne].
  - rewrite filter_cons_True by done. rewrite last_cons.
    by destruct (last _).
  - rewrite filter_cons_False by done. done.
Qed.

Lemma users_loop_entry (rawUsers : list User.t) users k (v : User.t) :
  own (foldl (fun users elt => assign_user users (User._id elt) elt) users
         rawUsers) !! k = Some v ->
  own users !! k = Some v \/ (User._id v = k /\ v ∈ rawUsers).
Proof.
  revert users. induction rawUsers as [|elt rest IH]; intros users; simpl.
  - by left.
  - intros Hv. apply IH in Hv as [Hv|[Hid Hin]].
    + apply assign_user_entry in Hv as [[Hkey ->]|Hv]; [|by left].
      right. split; [done|]. by left.
    + right. split; [done|]. by right.
Qed.

(** Users without an own field [__proto__] never define an own property of
    that name: the last of them whose id is [__proto__] ends as the
    prototype of the table. *)
Lemma users_loop_plain (rawUsers : list User.t) users :
  Forall plain_user rawUsers ->
  own users !! "__proto__" = None ->
  prototype users ≫= User.field "__proto__" = None ->
  let users' :=
    foldl (fun users elt => assign_user users (User._id elt) elt) users
      rawUsers in
  own users' !! "__proto__" = None /\
  prototype users' ≫= User.field "__proto__" = None /\
  prototype users' =
    match last (filter (fun elt => User._id elt = "__proto__") rawUsers) with
    | Some elt => Some elt
    | None => prototype users
    end.
Proof.
  simpl. revert users.
  induction rawUsers as [|elt rest IH]; intros users Hplain Hown Hproto; [done|].
  apply Forall_cons in Hplain as [Helt Hrest]. simpl.
  destruct (decide (User._id elt = "__proto__")) as [Heq|Hne].
  - rewrite filter_cons_True by done. rewrite last_cons.
    assert (Hstep : assign_user users (User._id elt) elt = set_prototype elt users).
    { unfold assign_user. rewrite Heq. rewrite decide_True by done.
      by rewrite Hown, Hproto. }
    rewrite Hstep. destruct (IH (set_prototype elt users)) as (H1 & H2 & H3);
      try done.
    split; [done|]. split; [done|]. rewrite H3. by destruct (last _).
  - rewrite filter_cons_False by done.
    rewrite assign_user_define by done.
    destruct (IH (define_own (User._id elt) elt users)) as (H1 & H2 & H3);
      try done.
    simpl. by rewrite lookup_insert_ne.
Qed.

Lemma users_table_ALL (rawUsers : list User.t) :
  own (convertRawUsersToHasedObject rawUsers) !! "ALL" = Some ALL_user.
Proof.
  unfold convertRawUsersToHasedObject.
  rewrite assign_user_lookup by done. by rewrite decide_True.
Qed.

Lemma users_table_lookup (rawUsers : list User.t) k :
  k <> "ALL" -> k <> "__proto__" ->
  own (convertRawUsersToHasedObject rawUsers) !! k =
    last (filter (fun elt => User._id elt = k) rawUsers).
Proof.
  intros HALL Hk. unfold convertRawUsersToHasedObject.
  rewrite assign_user_lookup by done. rewrite decide_False by done.
  rewrite users_loop_lookup by done. destruct (last _); [done|].
  apply lookup_empty.
Qed.

Lemma users_table_entry (rawUsers : list User.t) k (v : User.t) :
  own (convertRawUsersToHasedObject rawUsers) !! k = Some v ->
  User._id v = k /\ (v = ALL_user \/ v ∈ rawUsers).
Proof.
  unfold convertRawUsersToHasedObject. intros Hv.
  apply assign_user_entry in Hv as [[<- ->]|Hv]; [by auto|].
  apply users_loop_entry in Hv as [Hv|[Hid Hin]]; [|by auto].
  simpl in Hv. by rewrite lookup_empty in Hv.
Qed.

(** A key that is neither "ALL" nor the id of a user of the array is not in
    the table. *)
Lemma users_table_absent (rawUsers : list User.t) k :
  k <> "ALL" -> (forall x : User.t, x ∈ rawUsers -> User._id x <> k) ->
  own (convertRawUsersToHasedObject rawUsers) !! k = None.
Proof.
  intros HALL Hids.
  destruct (own (convertRawUsersToHasedObject rawUsers) !! k) as [v|] eqn:Hv;
    [|done].
  apply users_table_entry in Hv as [Hid [->|Hin]].
  - by destruct HALL.
  - by destruct (Hids v Hin).
Qed.

Lemma users_table_plain (rawUsers : list User.t) :
  Forall plain_user rawUsers ->
  own (convertRawUsersToHasedObject rawUsers) !! "__proto__" = None /\
  prototype (convertRawUsersToHasedObject rawUsers) =
    last (filter (fun elt => User._id elt = "__proto__") rawUsers).
Proof.
  intros Hplain. unfold convertRawUsersToHasedObject.
  destruct (users_loop_plain rawUsers (mkUsersObject ∅ None) Hplain)
    as (Hown & _ & Hproto); [done..|].
  simpl in Hproto. rewrite assign_user_define by done. simpl.
  rewrite lookup_insert_ne by done. split; [done|].
  rewrite Hproto. by destruct (last _).
Qed.

Lemma size_list_to_set_le (ids : list string) :
  (size (list_to_set ids : gset string) <= length ids)%nat.
Proof.
  induction ids as [|id rest IH].
  - rewrite list_to_set_nil, size_empty. done.
  - rewrite list_to_set_cons, size_union_alt, size_singleton. simpl.
    apply le_n_S. etrans; [|exact IH]. apply subseteq_size. set_solver.
Qed.

(** *** The message table *)

Lemma get_member_Own {A} (obj : gmap string A) key (a : A) :
  obj !! key = Some a -> get_member obj key = Own a.
Proof. unfold get_member. by intros ->. Qed.

(** A round of the loop that does not throw appends [elt] to the sequence of
    its chat and leaves the other sequences alone. *)
Lemma push_message_lookup messages messages' (elt : Message.t) k :
  push_message messages elt = Normal messages' ->
  messages' !! k =
    if decide (Message.chat_id elt = k)
    then Some (default [] (messages !! k) ++ [elt])%list
    else messages !! k.
Proof.
  unfold push_message, get_member.
  destruct (messages !! Message.chat_id elt) as [arr|] eqn:Hold.
  - rewrite Hold. intros [= <-]. destruct (decide (Message.chat_id elt = k)) as [<-|Hne].
    + by rewrite lookup_insert_eq, Hold.
    + by rewrite lookup_insert_ne.
  - destruct (decide (Message.chat_id elt ∈ Object_prototype)).
    + by rewrite Hold.
    + rewrite lookup_insert_eq. intros [= <-].
      destruct (decide (Message.chat_id elt = k)) as [<-|Hne].
      * by rewrite lookup_insert_eq, Hold.
      * by rewrite !lookup_insert_ne.
Qed.

(** A round of the loop succeeds on a plain chat id, and throws on the name
    of an inherited member under which the table has no sequence. *)
Lemma push_message_plain messages (elt : Message.t) :
  plain_chat_id elt -> exists messages', push_message messages elt = Normal messages'.
Proof.
  unfold plain_chat_id, push_message, get_member. intros Hplain.
  destruct (messages !! Message.chat_id elt) as [arr|] eqn:Hold.
  - rewrite Hold. eauto.
  - rewrite decide_False by done. rewrite lookup_insert_eq. eauto.
Qed.

Lemma push_message_inherited messages (elt : Message.t) :
  ~ plain_chat_id elt -> messages !! Message.chat_id elt = None ->
  push_message messages elt =
    Throw (TypeError "messages[key].push is not a function").
Proof.
  unfold plain_chat_id, push_message, get_member. intros Hplain Hold.
  destruct (decide (Message.chat_id elt ∈ Object_prototype)); [|done].
  by rewrite !Hold.
Qed.

Lemma messages_loop_lookup (result : list Message.t) messages messages' k :
  forEach push_message messages result = Normal messages' ->
  messages' !! k =
    match messages !! k, filter (fun elt => Message.chat_id elt = k) result with
    | None, [] => None
    | old, group => Some (default [] old ++ group)%list
    end.
Proof.
  revert messages. induction result as [|elt rest IH]; intros messages; simpl.
  - intros [= <-]. rewrite filter_nil. destruct (messages !! k); [|done].
    simpl. by rewrite app_nil_r.
  - destruct (push_message messages elt) as [step|] eqn:Hstep; [|done].
    intros Hrest. rewrite (IH _ Hrest), (push_message_lookup _ _ _ _ Hstep).
    destruct (decide (Message.chat_id elt = k)) as [Hk|Hk].
    + rewrite filter_cons_True by done.
      destruct (messages !! k), (filter _ rest); simpl;
        by rewrite <- ?app_assoc.
    + rewrite filter_cons_False by done. done.
Qed.

Lemma messages_loop_plain (result : list Message.t) messages :
  plain_keys messages -> Forall plain_chat_id result ->
  exists messages', forEach push_message messages result = Normal messages'.
Proof.
  revert messages. induction result as [|elt rest IH]; intros messages Hkeys Hall.
  - simpl. eauto.
  - apply Forall_cons in Hall as [Helt Hrest]. simpl.
    destruct (push_message_plain messages elt Helt) as [step Hstep].
    rewrite Hstep. apply IH; [|done].
    intros k Hk. rewrite (push_message_lookup _ _ _ _ Hstep) in Hk.
    destruct (decide (Message.chat_id elt = k)) as [<-|Hne]; [done|].
    by apply Hkeys.
Qed.

Lemma messages_loop_inherited (result : list Message.t) messages :
  plain_keys messages -> ~ Forall plain_chat_id result ->
  forEach push_message messages result =
    Throw (TypeError "messages[key].push is not a function").
Proof.
  revert messages. induction result as [|elt rest IH]; intros messages Hkeys Hall.
  - by destruct Hall.
  - simpl. destruct (decide (plain_chat_id elt)) as [Helt|Helt].
    + destruct (push_message_plain messages elt Helt) as [step Hstep].
      rewrite Hstep. apply IH.
      * intros k Hk. rewrite (push_message_lookup _ _ _ _ Hstep) in Hk.
        destruct (decide (Message.chat_id elt = k)) as [<-|Hne]; [done|].
        by apply Hkeys.
      * intros Hrest. apply Hall. by constructor.
    + rewrite push_message_inherited; [done..|].
      destruct (messages !! Message.chat_id elt) eqn:Hold; [|done].
      destruct Helt. apply Hkeys. by rewrite Hold.
Qed.

Lemma group_messages_plain (result : list Message.t) :
  Forall plain_chat_id result ->
  exists messages, group_messages result = Normal messages.
Proof.
  intros Hall. unfold group_messages.
  destruct (messages_loop_plain result ∅) as [messages' Hloop]; [|done|].
  - intros k [v Hv]. by rewrite lookup_empty in Hv.
  - rewrite Hloop. simpl. eauto.
Qed.

Lemma group_messages_inherited (result : list Message.t) :
  ~ Forall plain_chat_id result ->
  group_messages result =
    Throw (TypeError "messages[key].push is not a function").
Proof.
  intros Hall. unfold group_messages.
  rewrite messages_loop_inherited; [done| |done].
  intros k [v Hv]. by rewrite lookup_empty in Hv.
Qed.

Lemma messages_table_ALL (result : list Message.t) messages :
  group_messages result = Normal messages -> messages !! "ALL" = Some [].
Proof.
  unfold group_messages. destruct (forEach _ _ _); [|done].
  intros [= <-]. apply lookup_insert_eq.
Qed.

Lemma messages_table_lookup (result : list Message.t) messages k :
  group_messages result = Normal messages ->
  k <> "ALL" ->
  messages !! k =
    match filter (fun elt => Message.chat_id elt = k) result with
    | [] => None
    | group => Some group
    end.
Proof.
  unfold group_messages.
  destruct (forEach _ _ _) as [loop|] eqn:Hloop; [|done].
  intros [= <-] Hk. rewrite lookup_insert_ne by done.
  rewrite (messages_loop_lookup _ _ _ _ Hloop), lookup_empty. done.
Qed.

End Tables.

(** ** Filter predicates *)

Lemma chat_field_from (c : Chat.t) :
  Chat.field "from" c = Some (VString (Chat.from c)).
Proof. reflexivity. Qed.

Lemma chat_field_to (c : Chat.t) :
  Chat.field "to" c = Some (VString (Chat.to c)).
Proof. reflexivity. Qed.

Lemma user_field_id (x : User.t) :
  User.field "_id" x = Some (VString (User._id x)).
Proof. reflexivity. Qed.

Section Predicates.
Variable u : User.t.

Lemma chats_condition_spec (c : Chat.t) :
  satisfies (c := Chats) (chats_condition u) c = true <->
  Chat.from c = User._id u \/ Chat.to c = User._id u \/ Chat.to c = "ALL".
Proof.
  unfold satisfies, chats_condition. simpl.
  rewrite chat_field_from, chat_field_to.
  rewrite !orb_true_iff, !bool_decide_eq_true. intuition congruence.
Qed.

Lemma live_chats_condition_spec (c : Chat.t) :
  satisfies (c := Chats) (live_chats_condition u) c = true <->
  Chat.from c = User._id u \/ Chat.to c = User._id u \/ Chat.to c = "ALL".
Proof.
  unfold satisfies, live_chats_condition. simpl.
  rewrite chat_field_from, chat_field_to.
  rewrite !orb_true_iff, !bool_decide_eq_true. intuition congruence.
Qed.

Lemma users_condition_spec (x : User.t) :
  satisfies (c := Users) (users_condition u) x = true <->
  User._id x <> User._id u.
Proof.
  unfold satisfies, users_condition. simpl.
  rewrite user_field_id.
  rewrite negb_true_iff, bool_decide_eq_false. intuition congruence.
Qed.

End Predicates.

Lemma resolves_only_on_200_query {D V} (reshape : D -> Completion V) reply :
  resolves_only_on_200 reshape reply (query_promise reshape reply).
Proof.
  unfold resolves_only_on_200, query_promise. repeat split.
  - intros res result v -> Hs Hd Hv. apply Z.eqb_eq in Hs.
    by rewrite Hs, Hd, Hv.
  - intros v Hv. destruct reply as [res| |]; try discriminate.
    destruct (status res =? 200)%Z eqn:Hs; try discriminate.
    destruct (data res) as [result|] eqn:Hd; try discriminate.
    destruct (reshape result) as [v'|] eqn:Hr; try discriminate.
    exists res, result. apply Z.eqb_eq in Hs. by simplify_eq.
  - intros res -> Hs. apply Z.eqb_neq in Hs. by rewrite Hs.
Qed.

(** ** The claims of the specification *)

(** C1: for every [chatID] and [text], when the backend insert made by
    [sendMessage] fulfils with a response whose status is not 200, the
    returned promise is rejected (it is neither pending nor resolved) with the
    message "User not allowed to sign in"; when the insert rejects with a
    transport error, the promise is rejected with that same error. *)
Theorem sendMessage_rejects_on_failure env n u chatID text :
  store_user env = Some u ->
  let insert := InsertOne Messages (new_message env n u chatID text) in
  let reply := insert_one (db env) Messages (new_message env n u chatID text) in
  let w := after env n (sendMessage chatID text) in
  calls w = [insert] /\
  (forall res, reply = Fulfils res -> status res <> 200%Z ->
     promise w = Rejected (ThrownString "User not allowed to sign in")) /\
  (forall error, reply = Rejects error -> promise w = Rejected error).
Proof.
  intros Hu. simpl. rewrite (sendMessage_world env n u) by done. simpl.
  split; [done|]. split.
  - intros res -> Hs. apply Z.eqb_neq in Hs. by rewrite Hs.
  - by intros error ->.
Qed.

Lemma sendMessage_rejects_on_failure_witness :
  promise (after (writes_env (Fulfils (mkResponse 403 None))) 0
             (sendMessage "c1" "hello"))
    = Rejected (ThrownString "User not allowed to sign in") /\
  promise (after (writes_env (Rejects (BackendFailure "offline"))) 0
             (sendMessage "c1" "hello"))
    = Rejected (BackendFailure "offline").
Proof.
  split.
  - destruct (sendMessage_rejects_on_failure
                (writes_env (Fulfils (mkResponse 403 None))) 0 alice "c1" "hello"
                eq_refl) as (_ & H & _).
    apply (H (mkResponse 403 None)); [reflexivity | discriminate].
  - destruct (sendMessage_rejects_on_failure
                (writes_env (Rejects (BackendFailure "offline"))) 0 alice "c1"
                "hello" eq_refl) as (_ & _ & H).
    apply H. reflexivity.
Defined.

(** C2: [getChats], [getUsers] and [getMessages] send one query each, and the
    promise each returns resolves (with the raw result list, with the user
    table, with the grouped message table when the loop builds one) only on
    a response of status 200; on a response of any other status it neither
    resolves nor rejects. *)
Theorem queries_resolve_only_on_200 env n u :
  store_user env = Some u ->
  (calls (after env n getChats) = [Get Chats (chats_condition u)] /\
   resolves_only_on_200 (fun result => Normal result)
     (get_where (db env) Chats (chats_condition u))
     (promise (after env n getChats))) /\
  (calls (after env n getUsers) = [Get Users (users_condition u)] /\
   resolves_only_on_200
     (fun result => Normal (convertRawUsersToHasedObject result))
     (get_where (db env) Users (users_condition u))
     (promise (after env n getUsers))) /\
  (calls (after env n getMessages) = [Get Messages (messages_condition u)] /\
   resolves_only_on_200 group_messages
     (get_where (db env) Messages (messages_condition u))
     (promise (after env n getMessages))).
Proof.
  intros Hu.
  rewrite (getChats_world env n u), (getUsers_world env n u),
    (getMessages_world env n u) by done.
  simpl. repeat split; apply resolves_only_on_200_query.
Qed.

Lemma queries_resolve_only_on_200_witness :
  promise (after (sample_env Unsettled (Fulfils (mkResponse 500 None))
                    (Fulfils (mkResponse 401 None))
                    (Fulfils (mkResponse 403 (Some sample_messages)))) 0
             getChats) = Pending /\
  promise (after (sample_env Unsettled (Fulfils (mkResponse 500 None))
                    (Fulfils (mkResponse 401 None))
                    (Fulfils (mkResponse 403 (Some sample_messages)))) 0
             getUsers) = Pending /\
  promise (after (sample_env Unsettled (Fulfils (mkResponse 500 None))
                    (Fulfils (mkResponse 401 None))
                    (Fulfils (mkResponse 403 (Some sample_messages)))) 0
             getMessages) = Pending.
Proof.
  destruct (queries_resolve_only_on_200
              (sample_env Unsettled (Fulfils (mkResponse 500 None))
                 (Fulfils (mkResponse 401 None))
                 (Fulfils (mkResponse 403 (Some sample_messages)))) 0 alice
              eq_refl)
    as ((_ & _ & _ & Hc) & (_ & _ & _ & Hu) & (_ & _ & _ & Hm)).
  split; [|split].
  - apply (Hc (mkResponse 401 None)); [reflexivity | discriminate].
  - apply (Hu (mkResponse 500 None)); [reflexivity | discriminate].
  - apply (Hm (mkResponse 403 (Some sample_messages))); [reflexivity | discriminate].
Defined.

(** [updateMessage] never rejects the promise it returns: a failure of the
    backend call is thrown again inside the [catch] handler, where it rejects
    only the promise the chain ends in, whose value is dropped. *)
Lemma updateMessage_never_rejects env n message :
  let p := cond "_id" "==" (Message._id message) in
  let w := after env n (updateMessage message) in
  calls w = [UpdateOne Messages p message] /\
  (forall res, update_one (db env) Messages p message = Fulfils res ->
     promise w = Resolved res) /\
  (forall err, update_one (db env) Messages p message = Rejects err ->
     promise w = Pending /\ unhandled w = [err]).
Proof.
  simpl. rewrite updateMessage_world. simpl. split; [done|].
  split; [intros res ->; done | intros err ->; done].
Qed.

(** C3: [updateMessage] sends the update of collection "messages" with the
    condition [_id == message._id] and the message as patch; but when that
    backend call fails, the promise it returns does not reject with the
    backend error: it stays pending, and the error ends as an unhandled
    rejection of the chained promise.  Here a message is marked read while
    the backend is unreachable. *)
Example updateMessage_failure_leaves_promise_pending :
  let message := Message.mk "m1" "hi" true "c1" "u2" 10 in
  let w := after (writes_env (Rejects (BackendFailure "offline"))) 0
             (updateMessage message) in
  calls w = [UpdateOne Messages (cond "_id" "==" "m1") message] /\
  promise w = Pending /\
  promise w <> Rejected (BackendFailure "offline") /\
  unhandled w = [BackendFailure "offline"].
Proof. simpl. repeat split. discriminate. Qed.

(** C4, as the claim states it, fails when two users of the array share an
    id: the later one takes the key, so the id of the earlier one does not
    map to the earlier one's record. *)
Lemma users_table_shared_id_counterexample :
  exists elt : User.t,
    elt ∈ [User.mk "u1" "A" []; User.mk "u1" "B" []] /\
    own (convertRawUsersToHasedObject
           [User.mk "u1" "A" []; User.mk "u1" "B" []])
      !! User._id elt <> Some elt.
Proof.
  exists (User.mk "u1" "A" []). split; [set_solver|].
  rewrite users_table_lookup by done. simpl. discriminate.
Qed.

(** C4 (amended): for every array of users, [convertRawUsersToHasedObject]
    is a function of the array alone; its result holds the sentinel
    [{_id: "ALL", name: "ALL"}] under "ALL", and maps the id of every user of
    the array, unless that id is "ALL" or "__proto__", to the last user of
    the array with that id, so to that user's own record whenever no later
    user of the array has the same id; on the empty array the result has
    exactly one entry, under "ALL".  What becomes of a user whose id is
    "__proto__" is left open here. *)
Theorem users_table_contents (rawUsers : list User.t) :
  let users := own (convertRawUsersToHasedObject rawUsers) in
  users !! "ALL" = Some ALL_user /\
  (forall elt : User.t, elt ∈ rawUsers ->
     User._id elt <> "ALL" -> User._id elt <> "__proto__" ->
     users !! User._id elt =
       last (filter (fun x => User._id x = User._id elt) rawUsers)) /\
  (forall before elt later, rawUsers = (before ++ elt :: later)%list ->
     User._id elt <> "ALL" -> User._id elt <> "__proto__" ->
     User._id elt ∉ User._id <$> later ->
     users !! User._id elt = Some elt) /\
  (own (convertRawUsersToHasedObject []) = {["ALL" := ALL_user]} /\
   size (own (convertRawUsersToHasedObject [])) = 1).
Proof.
  cbv zeta. split; [apply users_table_ALL|].
  split; [|split].
  - intros elt _ HALL Hproto. by apply users_table_lookup.
  - intros before elt later -> HALL Hproto Hlater.
    rewrite users_table_lookup by done.
    rewrite filter_app, filter_cons_True by done.
    replace (filter (fun x => User._id x = User._id elt) later) with (@nil User.t).
    + by rewrite last_snoc.
    + symmetry. apply filter_no_match. intros x Hx Heq.
      apply Hlater. rewrite <- Heq. by apply list_elem_of_fmap_2.
  - assert (Hempty : own (convertRawUsersToHasedObject []) =
                     {["ALL" := ALL_user]}).
    { unfold convertRawUsersToHasedObject.
      rewrite assign_user_define by done. simpl. apply insert_empty. }
    rewrite Hempty. split; [done|]. apply map_size_singleton.
Qed.

(** C5: with [u] signed in, [createChat partnerID] sends exactly one request,
    the insert into "chats" of the record it built (a newly generated id,
    [from] the id of [u], [to] the partner, [creation] the current time), and
    resolves with that very record when the insert succeeds; when the insert
    rejects, it rejects with the backend's error. *)
Theorem createChat_inserts_once_and_resolves_local env n u partnerID :
  store_user env = Some u ->
  let w := after env n (createChat partnerID) in
  exists chat : Chat.t,
    calls w = [InsertOne Chats chat] /\
    Chat._id chat = id_supply env n /\ ids_taken w = S n /\
    (Inj (=) (=) (id_supply env) ->
       forall k, (k < n)%nat -> id_supply env k <> Chat._id chat) /\
    Chat.from chat = User._id u /\
    Chat.to chat = partnerID /\
    Chat.creation chat = now env /\
    (forall res, insert_one (db env) Chats chat = Fulfils res ->
       promise w = Resolved chat) /\
    (forall error, insert_one (db env) Chats chat = Rejects error ->
       promise w = Rejected error).
Proof.
  intros Hu. simpl. rewrite (createChat_world env n u) by done.
  exists (new_chat env n u partnerID). simpl. repeat split.
  - intros Hinj k Hk Heq. apply Hinj in Heq. lia.
  - by intros res ->.
  - by intros error ->.
Qed.

Lemma createChat_inserts_once_and_resolves_local_witness :
  exists chat : Chat.t,
    chat = Chat.mk "id0" "u2" "u1" 1000 /\
    calls (after (writes_env (Fulfils (mkResponse 200 None))) 0
             (createChat "u2")) = [InsertOne Chats chat] /\
    promise (after (writes_env (Fulfils (mkResponse 200 None))) 0
               (createChat "u2")) = Resolved chat.
Proof.
  destruct (createChat_inserts_once_and_resolves_local
              (writes_env (Fulfils (mkResponse 200 None))) 0 alice "u2" eq_refl)
    as (chat & Hcalls & Hid & _ & _ & Hfrom & Hto & Hcreation & Hres & _).
  exists chat. split.
  - destruct chat; simpl in *. by subst.
  - split; [exact Hcalls|].
    apply (Hres (mkResponse 200 None)). reflexivity.
Defined.

(** C6: with [u] signed in, the condition [getChats] sends and the condition
    [startChatsRealtime] puts on its live query are satisfied by a chat
    exactly when its [from] is [u], or its [to] is [u], or its [to] is
    "ALL"; a chat that meets none of the three is excluded. *)
Theorem chats_predicate_selects_own_and_ALL env n u :
  store_user env = Some u ->
  exists p q : Condition,
    calls (after env n getChats) = [Get Chats p] /\
    startChatsRealtime env (start (V := unit) n) =
      (start n, Normal (mkLiveQuery Chats (Some q))) /\
    forall chat : Chat.t,
      let own :=
        Chat.from chat = User._id u \/ Chat.to chat = User._id u \/
        Chat.to chat = "ALL" in
      (satisfies (c := Chats) p chat = true <-> own) /\
      (satisfies (c := Chats) q chat = true <-> own) /\
      (~ own -> satisfies (c := Chats) p chat = false /\
                satisfies (c := Chats) q chat = false).
Proof.
  intros Hu. exists (chats_condition u), (live_chats_condition u).
  rewrite (getChats_world env n u), (startChatsRealtime_value env u) by done.
  simpl. repeat split; try apply chats_condition_spec;
    try apply live_chats_condition_spec.
  - apply not_true_is_false. by rewrite chats_condition_spec.
  - apply not_true_is_false. by rewrite live_chats_condition_spec.
Qed.

Lemma chats_predicate_selects_own_and_ALL_witness :
  exists p q : Condition,
    calls (after (writes_env Unsettled) 0 getChats) = [Get Chats p] /\
    startChatsRealtime (writes_env Unsettled) (start (V := unit) 0) =
      (start 0, Normal (mkLiveQuery Chats (Some q))) /\
    satisfies (c := Chats) p (Chat.mk "c1" "ALL" "u2" 5) = true /\
    satisfies (c := Chats) q (Chat.mk "c2" "u3" "u2" 6) = false.
Proof.
  destruct (chats_predicate_selects_own_and_ALL (writes_env Unsettled) 0 alice
              eq_refl) as (p & q & Hp & Hq & H).
  exists p, q. split; [exact Hp|]. split; [exact Hq|]. split.
  - apply (H (Chat.mk "c1" "ALL" "u2" 5)). right. right. reflexivity.
  - apply (H (Chat.mk "c2" "u3" "u2" 6)). simpl. intros [?|[?|?]]; discriminate.
Defined.

(** C7: [getMessages] does not resolve with a grouped table for every
    successful result.  Here [alice] is signed in and the backend answers
    her query with status 200 and one message, sent by her, of a chat whose
    id is "constructor": the loop finds the inherited member of that name in
    place of a sequence, [push] is not a function of it, and the promise
    rejects with the [TypeError] instead of resolving. *)
Example getMessages_rejects_on_inherited_chat_id :
  let w :=
    after (sample_env Unsettled Unsettled Unsettled
             (Fulfils (mkResponse 200 (Some [constructor_message])))) 0
      getMessages in
  calls w = [Get Messages (messages_condition alice)] /\
  satisfies (c := Messages) (messages_condition alice) constructor_message = true /\
  (exists msg, promise w = Rejected (TypeError msg)) /\
  (forall table, promise w <> Resolved table).
Proof.
  simpl. split; [reflexivity|]. split; [reflexivity|].
  split; [by eexists|]. intros table. discriminate.
Qed.

(** C8: with [u] signed in, the condition [getUsers] sends is the inequality
    [_id != u._id]; a user record satisfies it exactly when its id differs
    from the id of [u]; so a result whose rows all satisfy the condition
    does not contain the caller, and neither does the table [getUsers]
    resolves with (unless the caller's id is the sentinel's, "ALL"). *)
Theorem getUsers_excludes_caller env n u :
  store_user env = Some u ->
  let p := cond "_id" "!=" (User._id u) in
  calls (after env n getUsers) = [Get Users p] /\
  (forall x : User.t,
     satisfies (c := Users) p x = true <-> User._id x <> User._id u) /\
  (forall res result,
     get_where (db env) Users p = Fulfils res -> status res = 200%Z ->
     data res = Some result -> honours (c := Users) p result ->
     (forall x : User.t, x ∈ result -> User._id x <> User._id u) /\
     exists users : UsersObject,
       promise (after env n getUsers) = Resolved users /\
       (User._id u <> "ALL" -> own users !! User._id u = None)).
Proof.
  intros Hu. simpl. rewrite (getUsers_world env n u) by done. simpl.
  split; [done|]. split; [apply users_condition_spec|].
  intros res result Hreply Hs Hd Hhon.
  assert (Hrows : forall x : User.t, x ∈ result -> User._id x <> User._id u).
  { intros x Hx. apply users_condition_spec.
    unfold honours in Hhon. rewrite Forall_forall in Hhon. by apply Hhon. }
  split; [exact Hrows|].
  exists (convertRawUsersToHasedObject result). split.
  - destruct (resolves_only_on_200_query
                (fun result => Normal (convertRawUsersToHasedObject result))
                (get_where (db env) Users (users_condition u))) as (Hres & _).
    by apply (Hres res result).
  - intros HALL. by apply users_table_absent.
Qed.

Lemma getUsers_excludes_caller_witness :
  satisfies (c := Users) (cond "_id" "!=" "u1") alice = false /\
  satisfies (c := Users) (cond "_id" "!=" "u1") bob = true /\
  calls (after (writes_env Unsettled) 0 getUsers) =
    [Get Users (cond "_id" "!=" "u1")].
Proof.
  destruct (getUsers_excludes_caller (writes_env Unsettled) 0 alice eq_refl)
    as (Hcalls & Hsat & _).
  split; [|split; [|exact Hcalls]].
  - apply not_true_is_false. intros H. apply (Hsat alice) in H. by apply H.
  - apply (Hsat bob). discriminate.
Defined.

(** C9: with [u] signed in, [sendMessage chatID text] inserts into
    "messages" a record with a newly generated id, [read] false, [from] the
    id of [u], the given chat id and text and the current time, and on a
    response of status 200 it resolves with that response itself, not with
    the record it built. *)
Theorem sendMessage_builds_message_and_resolves_with_response
    env n u chatID text :
  store_user env = Some u ->
  let w := after env n (sendMessage chatID text) in
  exists message : Message.t,
    calls w = [InsertOne Messages message] /\
    Message._id message = id_supply env n /\ ids_taken w = S n /\
    Message.read message = false /\
    Message.from message = User._id u /\
    Message.chat_id message = chatID /\
    Message.text message = text /\
    Message.time message = now env /\
    (forall res, insert_one (db env) Messages message = Fulfils res ->
       status res = 200%Z -> promise w = Resolved res).
Proof.
  intros Hu. simpl. rewrite (sendMessage_world env n u) by done.
  exists (new_message env n u chatID text). simpl. repeat split.
  intros res -> Hs. apply Z.eqb_eq in Hs. by rewrite Hs.
Qed.

Lemma sendMessage_builds_message_and_resolves_with_response_witness :
  calls (after (writes_env (Fulfils (mkResponse 200 (Some tt)))) 0
           (sendMessage "c1" "hello"))
    = [InsertOne Messages (Message.mk "id0" "hello" false "c1" "u1" 1000)] /\
  promise (after (writes_env (Fulfils (mkResponse 200 (Some tt)))) 0
             (sendMessage "c1" "hello"))
    = Resolved (mkResponse 200 (Some tt)).
Proof.
  destruct (sendMessage_builds_message_and_resolves_with_response
              (writes_env (Fulfils (mkResponse 200 (Some tt)))) 0 alice "c1"
              "hello" eq_refl)
    as (message & Hcalls & Hid & _ & Hread & Hfrom & Hchat & Htext & Htime & Hres).
  split.
  - rewrite Hcalls. destruct message; simpl in *. by subst.
  - apply Hres; reflexivity.
Defined.

(** C10: with [u] signed in, [createChat] does not look at the status of the
    response: whenever the insert fulfils, with whatever status, it resolves
    with the chat it built; [sendMessage] rejects on a fulfilled response
    whose status is not 200. *)
Theorem createChat_ignores_status env n u partnerID chatID text :
  store_user env = Some u ->
  (forall res,
     insert_one (db env) Chats (new_chat env n u partnerID) = Fulfils res ->
     promise (after env n (createChat partnerID)) =
       Resolved (new_chat env n u partnerID)) /\
  (forall res,
     insert_one (db env) Messages (new_message env n u chatID text) = Fulfils res ->
     status res <> 200%Z ->
     exists reason, promise (after env n (sendMessage chatID text)) = Rejected reason).
Proof.
  intros Hu. rewrite (createChat_world env n u), (sendMessage_world env n u) by done.
  simpl. split.
  - by intros res ->.
  - intros res -> Hs. apply Z.eqb_neq in Hs. rewrite Hs. eauto.
Qed.

Lemma createChat_ignores_status_witness :
  promise (after (writes_env (Fulfils (mkResponse 500 None))) 0 (createChat "u2"))
    = Resolved (Chat.mk "id0" "u2" "u1" 1000).
Proof.
  destruct (createChat_ignores_status (writes_env (Fulfils (mkResponse 500 None)))
              0 alice "u2" "c1" "hello" eq_refl) as (H & _).
  apply (H (mkResponse 500 None)). reflexivity.
Defined.

(** ** Beyond the claims: calls without a signed-in user *)

Section SignedOut.
Variable env : Env.
Variable n : nat.
Hypothesis Hout : store_user env = None.

Lemma createChat_world_signed_out partnerID :
  after env n (createChat partnerID) =
    mkWorld (S n) []
      (Rejected (TypeError "Cannot read properties of undefined (reading '_id')"))
      [].
Proof. unfold createChat. run_js. rewrite Hout. reflexivity. Qed.

Lemma sendMessage_world_signed_out chatID text :
  after env n (sendMessage chatID text) =
    mkWorld (S n) []
      (Rejected (TypeError "Cannot read properties of undefined (reading '_id')"))
      [].
Proof. unfold sendMessage. run_js. rewrite Hout. reflexivity. Qed.

Lemma getMessages_world_signed_out :
  after env n getMessages =
    mkWorld n []
      (Rejected (TypeError "Cannot read properties of undefined (reading '_id')"))
      [].
Proof. unfold getMessages. run_js. rewrite Hout. reflexivity. Qed.

Lemma getUsers_world_signed_out :
  after env n getUsers =
    mkWorld n []
      (Rejected (TypeError "Cannot read properties of undefined (reading '_id')"))
      [].
Proof. unfold getUsers. run_js. rewrite Hout. reflexivity. Qed.

Lemma getChats_world_signed_out :
  after env n getChats =
    mkWorld n []
      (Rejected (TypeError "Cannot read properties of undefined (reading '_id')"))
      [].
Proof. unfold getChats. run_js. rewrite Hout. reflexivity. Qed.

End SignedOut.

Ltac rejected_unsent_done :=
  unfold rejected_unsent; simpl; repeat split; eauto.

(** X1: while nobody is signed in, [createChat] and [sendMessage] send no
    request: reading [user._id] throws inside the executor, so the promise
    rejects with a [TypeError]; the identifier generated before that read is
    used up all the same. *)
Theorem signed_out_writes_reject_unsent env n partnerID chatID text :
  store_user env = None ->
  rejected_unsent (S n) (after env n (createChat partnerID)) /\
  rejected_unsent (S n) (after env n (sendMessage chatID text)).
Proof.
  intros Hout.
  rewrite createChat_world_signed_out, sendMessage_world_signed_out by done.
  split; rejected_unsent_done.
Qed.

Lemma signed_out_writes_reject_unsent_witness :
  rejected_unsent 4 (after (signed_out_env (Fulfils (mkResponse 200 None))) 3
                       (createChat "u2")) /\
  rejected_unsent 4 (after (signed_out_env (Fulfils (mkResponse 200 None))) 3
                       (sendMessage "c1" "hello")).
Proof.
  apply (signed_out_writes_reject_unsent
           (signed_out_env (Fulfils (mkResponse 200 None))) 3 "u2" "c1" "hello").
  reflexivity.
Defined.

(** X2: while nobody is signed in, [getMessages], [getUsers] and [getChats]
    send no query and generate no identifier: each rejects with the
    [TypeError] thrown while its condition is built. *)
Theorem signed_out_queries_reject_unsent env n :
  store_user env = None ->
  rejected_unsent n (after env n getMessages) /\
  rejected_unsent n (after env n getUsers) /\
  rejected_unsent n (after env n getChats).
Proof.
  intros Hout.
  rewrite getMessages_world_signed_out, getUsers_world_signed_out,
    getChats_world_signed_out by done.
  repeat apply conj; rejected_unsent_done.
Qed.

Lemma signed_out_queries_reject_unsent_witness :
  rejected_unsent 0 (after (signed_out_env Unsettled) 0 getMessages) /\
  rejected_unsent 0 (after (signed_out_env Unsettled) 0 getUsers) /\
  rejected_unsent 0 (after (signed_out_env Unsettled) 0 getChats).
Proof.
  apply (signed_out_queries_reject_unsent (signed_out_env Unsettled) 0).
  reflexivity.
Defined.

(** X3: while nobody is signed in, [startChatsRealtime] returns no live
    query: it is not wrapped in a promise, so the [TypeError] is thrown at
    the caller, and nothing else has happened. *)
Theorem startChatsRealtime_throws_signed_out {V} env (w : World V) :
  store_user env = None ->
  exists msg, startChatsRealtime env w = (w, Throw (TypeError msg)).
Proof.
  intros Hout. unfold startChatsRealtime. run_js. rewrite Hout. simpl. eauto.
Qed.

Lemma startChatsRealtime_throws_signed_out_witness :
  exists msg,
    startChatsRealtime (signed_out_env Unsettled) (start (V := unit) 0) =
      (start 0, Throw (TypeError msg)).
Proof.
  apply (startChatsRealtime_throws_signed_out (signed_out_env Unsettled)
           (start (V := unit) 0)).
  reflexivity.
Defined.

(** ** Beyond the claims: when the promises settle *)

Lemma query_failures_query {D V} (reshape : D -> Completion V) reply :
  query_failures reply (query_promise reshape reply).
Proof.
  unfold query_failures, query_promise. split; [|split].
  - intros res -> Hs Hd. apply Z.eqb_eq in Hs. rewrite Hs, Hd. eauto.
  - by intros err ->.
  - destruct reply as [[st d]| |]; simpl.
    + destruct (st =? 200)%Z eqn:Hs.
      * apply Z.eqb_eq in Hs. split.
        -- intros Hp. destruct d as [result|]; [|discriminate].
           destruct (reshape result); discriminate.
        -- intros [H|(res & H & Hne)]; [discriminate|]. by simplify_eq.
      * apply Z.eqb_neq in Hs. split; [|done]. intros _. right.
        eexists. split; [done|]. done.
    + split; [discriminate|]. intros [H|(res & H & _)]; discriminate.
    + split; [by left|done].
Qed.

(** X4: with [u] signed in, the promise of [createChat] and the promise of
    [sendMessage] stay pending exactly when the backend never answers the
    insert: every answer, success or failure, settles them, and no rejection
    is left unhandled. *)
Theorem writes_settle_with_backend env n u partnerID chatID text :
  store_user env = Some u ->
  let wc := after env n (createChat partnerID) in
  let ws := after env n (sendMessage chatID text) in
  (promise wc = Pending <->
   insert_one (db env) Chats (new_chat env n u partnerID) = Unsettled) /\
  (promise ws = Pending <->
   insert_one (db env) Messages (new_message env n u chatID text) = Unsettled) /\
  unhandled wc = [] /\ unhandled ws = [].
Proof.
  intros Hu. simpl.
  rewrite (createChat_world env n u), (sendMessage_world env n u) by done.
  simpl. split; [|split; [|split; reflexivity]].
  - destruct (insert_one _ _ _); split; intros H;
      first [discriminate H | reflexivity].
  - destruct (insert_one _ _ _) as [[st d]| |]; simpl;
      try destruct (st =? 200)%Z; split; intros H;
      first [discriminate H | reflexivity].
Qed.

Lemma writes_settle_with_backend_witness :
  promise (after (writes_env Unsettled) 0 (createChat "u2")) = Pending /\
  promise (after (writes_env Unsettled) 0 (sendMessage "c1" "hello")) = Pending.
Proof.
  destruct (writes_settle_with_backend (writes_env Unsettled) 0 alice "u2" "c1"
              "hello" eq_refl) as (Hc & Hs & _).
  split; [apply Hc | apply Hs]; reflexivity.
Defined.

(** X5: with [u] signed in, each of [getChats], [getUsers] and [getMessages]
    rejects with a [TypeError] on a 200 response that carries no data (the
    handler's exception reaches the [catch]), rejects with the backend's
    error when the query fails, and is left pending exactly when the backend
    never answers or answers with a status other than 200; no rejection is
    left unhandled. *)
Theorem queries_fail_or_hang env n u :
  store_user env = Some u ->
  (query_failures (get_where (db env) Chats (chats_condition u))
     (promise (after env n getChats)) /\
   unhandled (after env n getChats) = []) /\
  (query_failures (get_where (db env) Users (users_condition u))
     (promise (after env n getUsers)) /\
   unhandled (after env n getUsers) = []) /\
  (query_failures (get_where (db env) Messages (messages_condition u))
     (promise (after env n getMessages)) /\
   unhandled (after env n getMessages) = []).
Proof.
  intros Hu.
  rewrite (getChats_world env n u), (getUsers_world env n u),
    (getMessages_world env n u) by done.
  simpl. repeat apply conj; try done; apply query_failures_query.
Qed.

Lemma queries_fail_or_hang_witness :
  (exists msg,
     promise (after (sample_env Unsettled (Rejects (BackendFailure "offline"))
                       (Fulfils (mkResponse 200 None)) Unsettled) 0 getChats)
       = Rejected (TypeError msg)) /\
  promise (after (sample_env Unsettled (Rejects (BackendFailure "offline"))
                    (Fulfils (mkResponse 200 None)) Unsettled) 0 getUsers)
    = Rejected (BackendFailure "offline") /\
  promise (after (sample_env Unsettled (Rejects (BackendFailure "offline"))
                    (Fulfils (mkResponse 200 None)) Unsettled) 0 getMessages)
    = Pending.
Proof.
  destruct (queries_fail_or_hang
              (sample_env Unsettled (Rejects (BackendFailure "offline"))
                 (Fulfils (mkResponse 200 None)) Unsettled) 0 alice eq_refl)
    as (((Hc & _) & _) & ((_ & Hu & _) & _) & ((_ & _ & Hm) & _)).
  split; [|split].
  - apply (Hc (mkResponse 200 None)); reflexivity.
  - apply Hu. reflexivity.
  - apply Hm. left. reflexivity.
Defined.

(** X6: [sendMessage] never resolves with a response whose status is not
    200, and [createChat] never resolves with anything but the record it
    sent: whoever is signed in or not, a resolved [sendMessage] holds a
    fulfilled reply of status 200 to the one insert made, and a resolved
    [createChat] holds the chat that was inserted. *)
Theorem writes_resolve_only_after_insert env n partnerID chatID text :
  (forall res, promise (after env n (sendMessage chatID text)) = Resolved res ->
     status res = 200%Z /\
     exists message : Message.t,
       calls (after env n (sendMessage chatID text)) = [InsertOne Messages message] /\
       insert_one (db env) Messages message = Fulfils res) /\
  (forall chat, promise (after env n (createChat partnerID)) = Resolved chat ->
     calls (after env n (createChat partnerID)) = [InsertOne Chats chat] /\
     exists res, insert_one (db env) Chats chat = Fulfils res).
Proof.
  destruct (store_user env) as [u|] eqn:Hu.
  - rewrite (createChat_world env n u), (sendMessage_world env n u) by done.
    simpl. split.
    + intros res Hres.
      destruct (insert_one _ _ _) as [[st d]| |] eqn:Hreply; simpl in Hres;
        try discriminate.
      destruct (st =? 200)%Z eqn:Hs; simplify_eq. simpl.
      apply Z.eqb_eq in Hs. eauto.
    + intros chat Hres.
      destruct (insert_one _ _ _) as [res| |] eqn:Hreply; simplify_eq. eauto.
  - rewrite createChat_world_signed_out, sendMessage_world_signed_out by done.
    simpl. split; intros; discriminate.
Qed.

(** X7: [updateMessage] does not read the store and generates no identifier:
    signed in or not, it sends the one update, and it resolves with the raw
    response whenever the backend fulfils the call, whatever the status of
    that response (it is not compared with 200, unlike in [sendMessage]);
    when the backend never answers, the promise stays pending. *)
Theorem updateMessage_resolves_on_any_status env n message :
  let p := cond "_id" "==" (Message._id message) in
  let w := after env n (updateMessage message) in
  ids_taken w = n /\
  calls w = [UpdateOne Messages p message] /\
  (forall res, update_one (db env) Messages p message = Fulfils res ->
     promise w = Resolved res /\ unhandled w = []) /\
  (update_one (db env) Messages p message = Unsettled ->
     promise w = Pending /\ unhandled w = []).
Proof.
  simpl. rewrite updateMessage_world. simpl.
  split; [done|]. split; [done|].
  split; [intros res ->; done | intros ->; done].
Qed.

(** ** Beyond the claims: what the other conditions select *)

Lemma message_field_id (m : Message.t) :
  Message.field "_id" m = Some (VString (Message._id m)).
Proof. reflexivity. Qed.

Lemma message_field_chat_id (m : Message.t) :
  Message.field "chat_id" m = Some (VString (Message.chat_id m)).
Proof. reflexivity. Qed.

Lemma message_field_from (m : Message.t) :
  Message.field "from" m = Some (VString (Message.from m)).
Proof. reflexivity. Qed.

(** X8: the condition [updateMessage] sends selects exactly the stored
    messages that have the id of the message passed in, whatever their other
    fields; the message passed in satisfies it. *)
Theorem updateMessage_selects_by_id env n (message : Message.t) :
  exists p : Condition,
    calls (after env n (updateMessage message)) = [UpdateOne Messages p message] /\
    (forall stored : Message.t,
       satisfies (c := Messages) p stored = true <->
       Message._id stored = Message._id message) /\
    satisfies (c := Messages) p message = true.
Proof.
  exists (cond "_id" "==" (Message._id message)).
  rewrite updateMessage_world. simpl.
  assert (Hsel : forall stored : Message.t,
             satisfies (c := Messages) (cond "_id" "==" (Message._id message))
               stored = true <-> Message._id stored = Message._id message).
  { intros stored. unfold satisfies. simpl. rewrite message_field_id.
    rewrite bool_decide_eq_true. split; congruence. }
  split; [done|]. split; [exact Hsel|]. by apply Hsel.
Qed.

(** X9: with [u] signed in, the condition [getMessages] sends asks for [to]
    or [from] equal to the id of [u]; the messages [sendMessage] stores carry
    no [to] field, so on them the condition selects exactly the messages
    sent by [u], and a message [u] only received is not selected. *)
Theorem getMessages_selects_sent_messages env n u :
  store_user env = Some u ->
  exists p : Condition,
    calls (after env n getMessages) = [Get Messages p] /\
    forall m : Message.t,
      satisfies (c := Messages) p m = true <-> Message.from m = User._id u.
Proof.
  intros Hu. exists (messages_condition u).
  rewrite (getMessages_world env n u) by done. simpl. split; [done|].
  intros m. unfold satisfies, messages_condition. simpl.
  rewrite message_field_from, orb_false_r, bool_decide_eq_true.
  split; congruence.
Qed.

Lemma getMessages_selects_sent_messages_witness :
  exists p : Condition,
    calls (after (writes_env Unsettled) 0 getMessages) = [Get Messages p] /\
    satisfies (c := Messages) p (Message.mk "m4" "bye" true "c1" "u1" 13) = true /\
    satisfies (c := Messages) p (Message.mk "m1" "hi" false "c1" "u2" 10) = false.
Proof.
  destruct (getMessages_selects_sent_messages (writes_env Unsettled) 0 alice
              eq_refl) as (p & Hcalls & Hsel).
  exists p. split; [exact Hcalls|]. split.
  - apply Hsel. reflexivity.
  - apply not_true_is_false. intros H. apply Hsel in H. discriminate H.
Defined.

(** X10: [startMessagesRealtime chatID] is a live query on "messages" whose
    condition selects exactly the messages of chat [chatID], and
    [startUsersRealtime] is a live query on "users" with no condition;
    neither depends on who is signed in. *)
Theorem startMessagesRealtime_selects_chat (chatID : string) :
  lq_collection (startMessagesRealtime chatID) = Messages /\
  (exists p : Condition,
     lq_where (startMessagesRealtime chatID) = Some p /\
     forall m : Message.t,
       satisfies (c := Messages) p m = true <-> Message.chat_id m = chatID) /\
  startUsersRealtime = mkLiveQuery Users None.
Proof.
  split; [done|]. split; [|done].
  exists (cond "chat_id" "==" chatID). split; [done|].
  intros m. unfold satisfies. simpl. rewrite message_field_chat_id.
  rewrite bool_decide_eq_true. split; congruence.
Qed.

(** ** Beyond the claims: the tables *)

(** X11: every entry of the user table is filed under its own id: the value
    under key [k] is a user of the array, or the sentinel, whose [_id] is
    [k]. *)
Theorem users_table_keyed_by_id (rawUsers : list User.t) k elt :
  own (convertRawUsersToHasedObject rawUsers) !! k = Some elt ->
  User._id elt = k /\ (elt = ALL_user \/ elt ∈ rawUsers).
Proof.
  intros Hentry. apply users_table_entry in Hentry as [Hid Hfrom].
  split; [exact Hid|]. destruct Hfrom as [->|Hin]; [by left | by right].
Qed.

Lemma users_table_keyed_by_id_witness :
  User._id bob = "u2" /\ (bob = ALL_user \/ bob ∈ [alice; bob]).
Proof.
  apply (users_table_keyed_by_id [alice; bob] "u2" bob). reflexivity.
Defined.

(** With a user that has an own field [__proto__], the table of two arrays
    in a row is not made of the tables of the two: the first user becomes the
    prototype, and through its field the second one is defined as an own
    property, which neither table has alone. *)
Example users_table_app_own_proto_field :
  let first := [User.mk "__proto__" "x" [("__proto__", "y")]] in
  let second := [User.mk "__proto__" "z" []] in
  own (convertRawUsersToHasedObject (first ++ second)) !! "__proto__" =
    Some (User.mk "__proto__" "z" []) /\
  (own (convertRawUsersToHasedObject second)
   ∪ own (convertRawUsersToHasedObject first)) !! "__proto__" = None.
Proof. split; reflexivity. Qed.

(** X12: converting two arrays one after the other is converting the second
    and filling in from the first: where both have a user with the same id
    the later array wins.  This holds key by key for every key but
    [__proto__], and for the whole tables when no user has an own field of
    that name. *)
Theorem users_table_app (first second : list User.t) :
  (forall k, k <> "__proto__" ->
     own (convertRawUsersToHasedObject (first ++ second)) !! k =
       (own (convertRawUsersToHasedObject second)
        ∪ own (convertRawUsersToHasedObject first)) !! k) /\
  (Forall plain_user (first ++ second) ->
   own (convertRawUsersToHasedObject (first ++ second)) =
     own (convertRawUsersToHasedObject second)
     ∪ own (convertRawUsersToHasedObject first)).
Proof.
  assert (Hkeys : forall k, k <> "__proto__" ->
            own (convertRawUsersToHasedObject (first ++ second)) !! k =
              (own (convertRawUsersToHasedObject second)
               ∪ own (convertRawUsersToHasedObject first)) !! k).
  { intros k Hk. rewrite lookup_union.
    destruct (decide (k = "ALL")) as [->|HALL].
    - by rewrite !users_table_ALL.
    - rewrite !users_table_lookup by done. rewrite filter_app, last_app.
      by destruct (last (filter _ second)), (last (filter _ first)). }
  split; [exact Hkeys|].
  intros Hplain. apply map_eq. intros k.
  destruct (decide (k = "__proto__")) as [->|Hk]; [|by apply Hkeys].
  apply Forall_app in Hplain as Hparts. destruct Hparts as [Hfirst Hsecond].
  rewrite lookup_union.
  destruct (users_table_plain _ Hplain) as [-> _].
  destruct (users_table_plain _ Hfirst) as [-> _].
  destruct (users_table_plain _ Hsecond) as [-> _]. done.
Qed.

(** X13: the user table never has more than one entry per user plus the
    sentinel, and it has exactly that many when the ids of the array are
    pairwise different and none of them is "ALL" or "__proto__": then no
    user is lost. *)
Theorem users_table_size (rawUsers : list User.t) :
  (size (own (convertRawUsersToHasedObject rawUsers)) <= S (length rawUsers))%nat /\
  (NoDup (User._id <$> rawUsers) -> "ALL" ∉ User._id <$> rawUsers ->
   "__proto__" ∉ User._id <$> rawUsers ->
   size (own (convertRawUsersToHasedObject rawUsers)) = S (length rawUsers)).
Proof.
  assert (Hsub : dom (own (convertRawUsersToHasedObject rawUsers)) ⊆
                 ({["ALL"]} ∪ list_to_set (User._id <$> rawUsers) : gset string)).
  { intros k Hk. apply elem_of_dom in Hk as [v Hv].
    apply users_table_entry in Hv as [<- [->|Hin]].
    - set_solver.
    - apply elem_of_union_r, elem_of_list_to_set. by apply list_elem_of_fmap_2. }
  split.
  - rewrite <- size_dom. etrans; [apply subseteq_size, Hsub|].
    rewrite size_union_alt, size_singleton. apply le_n_S.
    etrans; [apply subseteq_size, subseteq_difference_l; reflexivity|].
    etrans; [apply size_list_to_set_le|]. by rewrite length_fmap.
  - intros Hnodup HALL Hproto.
    assert (Hdom : dom (own (convertRawUsersToHasedObject rawUsers)) =
                   ({["ALL"]} ∪ list_to_set (User._id <$> rawUsers) : gset string)).
    { apply set_eq. intros k. split; [apply Hsub|].
      intros [Hk|Hk]%elem_of_union; apply elem_of_dom.
      - apply elem_of_singleton in Hk as ->. by rewrite users_table_ALL.
      - apply elem_of_list_to_set, list_elem_of_fmap in Hk as (x & -> & Hx).
        rewrite users_table_lookup.
        + destruct (last _) eqn:Hlast; [done|]. apply last_None in Hlast.
          exfalso. by eapply filter_nil_not_elem_of.
        + intros Heq. apply HALL. rewrite <- Heq. by apply list_elem_of_fmap_2.
        + intros Heq. apply Hproto. rewrite <- Heq. by apply list_elem_of_fmap_2. }
    rewrite <- size_dom, Hdom. rewrite size_union by set_solver.
    rewrite size_singleton, size_list_to_set by done.
    by rewrite length_fmap.
Qed.

(** X14: whenever the loop of [getMessages] builds a table, every sequence
    of it holds messages of the result that belong to the chat it is filed
    under, and only the one under "ALL" is empty. *)
Theorem messages_table_groups_are_chats (result : list Message.t) table k group :
  group_messages result = Normal table ->
  table !! k = Some group ->
  (forall elt, elt ∈ group -> Message.chat_id elt = k /\ elt ∈ result) /\
  (group = [] <-> k = "ALL").
Proof.
  intros Htable. destruct (decide (k = "ALL")) as [->|Hk].
  - rewrite (messages_table_ALL _ _ Htable). intros [= <-].
    split; [|done]. intros elt Helt. by apply not_elem_of_nil in Helt.
  - rewrite (messages_table_lookup _ _ _ Htable) by done.
    destruct (filter _ result) as [|x rest] eqn:Hf; [done|].
    intros [= <-]. split; [|done].
    intros elt Helt. rewrite <- Hf in Helt.
    apply list_elem_of_filter in Helt. done.
Qed.

Lemma messages_table_groups_are_chats_witness :
  (forall elt,
     elt ∈ [Message.mk "m3" "yo" false "c2" "u3" 12] ->
     Message.chat_id elt = "c2" /\ elt ∈ sample_messages) /\
  ([Message.mk "m3" "yo" false "c2" "u3" 12] = [] <-> "c2" = "ALL").
Proof.
  eapply (messages_table_groups_are_chats sample_messages _ "c2"
            [Message.mk "m3" "yo" false "c2" "u3" 12]).
  - reflexivity.
  - reflexivity.
Defined.

(** X15: the loop of [getMessages] builds a table exactly when no chat id of
    the result is the name of a member inherited from [Object.prototype];
    and then a message is found in the table exactly when it is in the
    result and its chat id is not "ALL": the messages of chat "ALL" are
    dropped by the final [messages["ALL"] = []], every other message is kept
    under its chat id. *)
Theorem messages_table_keeps_all_but_ALL (result : list Message.t) :
  ((exists table, group_messages result = Normal table) <->
   Forall plain_chat_id result) /\
  (forall table elt, group_messages result = Normal table ->
     (exists k group, table !! k = Some group /\ elt ∈ group) <->
     elt ∈ result /\ Message.chat_id elt <> "ALL").
Proof.
  split.
  - split; [|apply group_messages_plain].
    intros [table Htable]. destruct (decide (Forall plain_chat_id result)); [done|].
    by rewrite group_messages_inherited in Htable.
  - intros table elt Htable. split.
    + intros (k & group & Hk & Helt).
      destruct (decide (k = "ALL")) as [->|Hne].
      * rewrite (messages_table_ALL _ _ Htable) in Hk.
        simplify_eq. by apply not_elem_of_nil in Helt.
      * rewrite (messages_table_lookup _ _ _ Htable) in Hk by done.
        destruct (filter _ result) as [|x rest] eqn:Hf; [done|].
        simplify_eq. rewrite <- Hf in Helt.
        apply list_elem_of_filter in Helt. naive_solver.
    + intros [Helt Hne].
      assert (Hin : elt ∈ filter (fun m => Message.chat_id m = Message.chat_id elt)
                            result) by by apply list_elem_of_filter.
      exists (Message.chat_id elt).
      rewrite (messages_table_lookup _ _ _ Htable) by done.
      destruct (filter _ result) as [|x rest]; [by apply not_elem_of_nil in Hin|].
      eauto.
Qed.

(** X16: grouping a result that arrives in two parts is grouping each part
    and appending, chat by chat, the sequences of the second part to those
    of the first; it throws exactly when grouping one of the parts does. *)
Theorem messages_table_app (first second : list Message.t) :
  group_messages (first ++ second) =
    earlier ← group_messages first;
    later ← group_messages second;
    mret (union_with (fun a b => Some (a ++ b)%list) earlier later).
Proof.
  destruct (decide (Forall plain_chat_id first)) as [Hfirst|Hfirst].
  - destruct (group_messages_plain _ Hfirst) as [earlier Hearlier].
    rewrite Hearlier. simpl.
    destruct (decide (Forall plain_chat_id second)) as [Hsecond|Hsecond].
    + destruct (group_messages_plain _ Hsecond) as [later Hlater].
      rewrite Hlater. simpl.
      destruct (group_messages_plain (first ++ second)) as [both Hboth];
        [by apply Forall_app|].
      rewrite Hboth. f_equal. apply map_eq. intros k.
      rewrite lookup_union_with.
      destruct (decide (k = "ALL")) as [->|Hk].
      * by rewrite (messages_table_ALL _ _ Hboth),
          (messages_table_ALL _ _ Hearlier), (messages_table_ALL _ _ Hlater).
      * rewrite (messages_table_lookup _ _ _ Hboth),
          (messages_table_lookup _ _ _ Hearlier),
          (messages_table_lookup _ _ _ Hlater) by done.
        rewrite filter_app.
        destruct (filter _ first), (filter _ second); simpl; try done.
        by rewrite app_nil_r.
    + rewrite (group_messages_inherited second) by done.
      rewrite group_messages_inherited; [done|].
      intros Hboth. by apply Forall_app in Hboth as [_ ?].
  - rewrite (group_messages_inherited first) by done.
    rewrite group_messages_inherited; [done|].
    intros Hboth. by apply Forall_app in Hboth as [? _].
Qed.

(** X18: with [u] signed in and a 200 response carrying [result],
    [getMessages] resolves, when no chat id of [result] is the name of a
    member inherited from [Object.prototype], with a table in which every
    chat id other than "ALL" that occurs in [result] holds the messages of
    that chat in the order of [result], no other such key is present, and
    "ALL" holds the empty sequence (alone, for an empty [result]); otherwise
    it rejects with the [TypeError] of the loop. *)
Theorem getMessages_groups_plain_chats env n u res result :
  store_user env = Some u ->
  get_where (db env) Messages (messages_condition u) = Fulfils res ->
  status res = 200%Z ->
  data res = Some result ->
  (Forall plain_chat_id result ->
   exists table : gmap string (list Message.t),
     promise (after env n getMessages) = Resolved table /\
     table !! "ALL" = Some [] /\
     (forall k, k <> "ALL" ->
        table !! k =
          match filter (fun elt => Message.chat_id elt = k) result with
          | [] => None
          | group => Some group
          end) /\
     (result = [] -> table = {["ALL" := []]})) /\
  (~ Forall plain_chat_id result ->
   exists msg, promise (after env n getMessages) = Rejected (TypeError msg)).
Proof.
  intros Hu Hreply Hs Hd.
  rewrite (getMessages_world env n u) by done. simpl.
  unfold query_promise. rewrite Hreply.
  destruct res as [st d]. simpl in *. subst st d. simpl. split.
  - intros Hplain. destruct (group_messages_plain _ Hplain) as [table Htable].
    rewrite Htable. exists table. split; [done|].
    split; [by apply (messages_table_ALL result)|].
    split; [intros k Hk; by apply (messages_table_lookup result)|].
    intros ->. unfold group_messages in Htable. simpl in Htable.
    injection Htable as <-. apply insert_empty.
  - intros Hplain. rewrite group_messages_inherited by done. eauto.
Qed.

Lemma getMessages_groups_plain_chats_witness :
  exists table : gmap string (list Message.t),
    promise (after (sample_env Unsettled Unsettled Unsettled
                      (Fulfils (mkResponse 200 (Some sample_messages)))) 0
               getMessages) = Resolved table /\
    table !! "ALL" = Some [] /\
    table !! "c1" =
      Some [Message.mk "m1" "hi" false "c1" "u2" 10;
            Message.mk "m4" "bye" true "c1" "u1" 13] /\
    table !! "c3" = None.
Proof.
  destruct (getMessages_groups_plain_chats
              (sample_env Unsettled Unsettled Unsettled
                 (Fulfils (mkResponse 200 (Some sample_messages)))) 0 alice
              (mkResponse 200 (Some sample_messages)) sample_messages
              eq_refl eq_refl eq_refl eq_refl) as [Hplain _].
  destruct Hplain as (table & Hp & HALL & Hk & _).
  { apply (bool_decide_unpack _). vm_compute. exact I. }
  exists table. split; [exact Hp|]. split; [exact HALL|]. split.
  - etrans; [apply (Hk "c1"); discriminate | reflexivity].
  - etrans; [apply (Hk "c3"); discriminate | reflexivity].
Defined.

(** X19: a user whose id is "__proto__" gets no entry in the user table.
    When no user of the array has an own field of that name, the table has no
    own property [__proto__], and the last user with that id, if there is
    one, has become the prototype of the table instead. *)
Theorem users_table_loses_proto_user (rawUsers : list User.t) :
  Forall plain_user rawUsers ->
  own (convertRawUsersToHasedObject rawUsers) !! "__proto__" = None /\
  prototype (convertRawUsersToHasedObject rawUsers) =
    last (filter (fun elt => User._id elt = "__proto__") rawUsers).
Proof.
  intros Hplain. destruct (users_table_plain _ Hplain) as [Hown Hproto].
  split; [exact Hown | exact Hproto].
Qed.

Lemma users_table_loses_proto_user_witness :
  own (convertRawUsersToHasedObject [alice; User.mk "__proto__" "P" []])
    !! "__proto__" = None /\
  prototype (convertRawUsersToHasedObject [alice; User.mk "__proto__" "P" []]) =
    Some (User.mk "__proto__" "P" []).
Proof.
  apply (users_table_loses_proto_user [alice; User.mk "__proto__" "P" []]).
  repeat constructor.
Defined.

(** ** Beyond the claims: identifiers *)

(** X17: with [u] signed in and a generator that never repeats an
    identifier, a chat created by [createChat] and a message sent by the
    [sendMessage] that follows it get different ids, and so do the messages
    of two [sendMessage] calls in a row. *)
Theorem consecutive_calls_use_distinct_ids env n u partnerID chatID text
    chatID' text' :
  store_user env = Some u ->
  Inj (=) (=) (id_supply env) ->
  let w1 := after env n (createChat partnerID) in
  let w2 := after env (ids_taken w1) (sendMessage chatID text) in
  let w3 := after env (ids_taken w2) (sendMessage chatID' text') in
  exists (chat : Chat.t) (message message' : Message.t),
    calls w1 = [InsertOne Chats chat] /\
    calls w2 = [InsertOne Messages message] /\
    calls w3 = [InsertOne Messages message'] /\
    Chat._id chat <> Message._id message /\
    Message._id message <> Message._id message' /\
    Chat._id chat <> Message._id message'.
Proof.
  intros Hu Hinj. simpl.
  rewrite (createChat_world env n u) by done. simpl.
  rewrite (sendMessage_world env (S n) u) by done. simpl.
  rewrite (sendMessage_world env (S (S n)) u) by done. simpl.
  eexists _, _, _. split; [done|]. split; [done|]. split; [done|]. simpl.
  repeat split; intros Heq; apply Hinj in Heq; lia.
Qed.

Lemma sample_ids_never_repeat : Inj (=) (=) (fun n : nat => "id" +:+ pretty n).
Proof.
  intros i j Heq. apply (inj (String.app "id")) in Heq.
  by apply (inj pretty) in Heq.
Qed.

Lemma consecutive_calls_use_distinct_ids_witness :
  exists (chat : Chat.t) (message message' : Message.t),
    calls (after (writes_env Unsettled) 0 (createChat "u2")) =
      [InsertOne Chats chat] /\
    calls (after (writes_env Unsettled) 1 (sendMessage "c1" "hello")) =
      [InsertOne Messages message] /\
    calls (after (writes_env Unsettled) 2 (sendMessage "c1" "again")) =
      [InsertOne Messages message'] /\
    Chat._id chat <> Message._id message /\
    Message._id message <> Message._id message' /\
    Chat._id chat <> Message._id message'.
Proof.
  apply (consecutive_calls_use_distinct_ids (writes_env Unsettled) 0 alice "u2"
           "c1" "hello" "c1" "again").
  - reflexivity.
  - exact sample_ids_never_repeat.
Defined.
